(** * curious.commands: a shallow embedding of the command layer

    The development follows the three source units of the package:
    - [curious/commands/utils.py]      (tokenizer, prefix matcher, argument converter),
    - [curious/commands/decorators.py] (command annotation of function objects),
    - [curious/commands/manager.py]    (plugin lifecycle and command resolution).

    Python text is modelled by [string], one [ascii] per code point (the
    Latin-1 range).  Python dictionaries are insertion-ordered association
    lists, exceptions are an explicit [Raise] outcome, and every operation of
    the manager threads the manager state explicitly. *)

From Stdlib Require Import String Ascii List ZArith Bool Arith Lia.
From stdpp Require Import base decidable option list strings gmap.

Import ListNotations.
Local Open Scope string_scope.

(** Text concatenation unfolds on constructors, as [app] does on lists. *)
#[global] Arguments String.append !s1 s2 : simpl nomatch.
Local Open Scope list_scope.

(** ** Python runtime: exceptions, values, text primitives *)

Module Py.

Inductive exn : Type :=
  | KeyError (key : string)
  | IndexError
  | TypeError
  | AttributeError (attr : string)
  | MissingArgumentError (param : string)
  | ConversionFailedError (param : string).

Inductive result (A : Type) : Type :=
  | Ok (a : A)
  | Raise (e : exn).
Arguments Ok {A} a.
Arguments Raise {A} e.

Definition bind {A B : Type} (r : result A) (k : A -> result B) : result B :=
  match r with
  | Ok a => k a
  | Raise e => Raise e
  end.

(** Python values that reach the argument converter. *)
Inductive value : Type :=
  | VNone
  | VBool (b : bool)
  | VInt (z : Z)
  | VStr (s : string).

Definition dquote : ascii := ascii_of_nat 34.
Definition newline : ascii := ascii_of_nat 10.
Definition space : ascii := ascii_of_nat 32.
Definition NUL : ascii := ascii_of_nat 0.

Definition chr (c : ascii) : string := String c EmptyString.

(** [str.isspace] on the code points below 256. *)
Definition isspace (c : ascii) : bool :=
  let n := nat_of_ascii c in
  (Nat.leb 9 n && Nat.leb n 13) || (Nat.leb 28 n && Nat.leb n 32)
  || Nat.eqb n 133 || Nat.eqb n 160.

Definition not_space (c : ascii) : bool := negb (isspace c).

(** [c] is the space character or no whitespace at all: the characters a
    quoted run may hold when only the default delimiter is protected. *)
Definition space_is_only_blank (c : ascii) : bool :=
  negb (isspace c) || Ascii.eqb c space.

Definition flush (word : string) : list string :=
  match word with
  | EmptyString => []
  | _ => [word]
  end.

(** [s.split()]: split on runs of whitespace, no empty parts. *)
Fixpoint split_go (word : string) (s : string) : list string :=
  match s with
  | EmptyString => flush word
  | String c r =>
      if isspace c then flush word ++ split_go EmptyString r
      else split_go (word ++ chr c) r
  end.

Definition split (s : string) : list string := split_go EmptyString s.

(** [s.split(sep)] for a one-character separator: every occurrence cuts,
    empty parts are kept, the result is never empty. *)
Fixpoint split_on_go (sep : ascii) (word : string) (s : string) : list string :=
  match s with
  | EmptyString => [word]
  | String c r =>
      if Ascii.eqb c sep then word :: split_on_go sep EmptyString r
      else split_on_go sep (word ++ chr c) r
  end.

Definition split_on (sep : ascii) (s : string) : list string :=
  split_on_go sep EmptyString s.

(** [c in s] for one character. *)
Fixpoint contains_char (c : ascii) (s : string) : bool :=
  match s with
  | EmptyString => false
  | String x r => Ascii.eqb x c || contains_char c r
  end.

(** Every character of [s] satisfies [f]. *)
Fixpoint all_chars (f : ascii -> bool) (s : string) : bool :=
  match s with
  | EmptyString => true
  | String x r => f x && all_chars f r
  end.

(** [a] becomes [b], every other character stays. *)
Definition swap (a b : ascii) (c : ascii) : ascii :=
  if Ascii.eqb c a then b else c.

(** [s] character by character through [f]. *)
Fixpoint map_chars (f : ascii -> ascii) (s : string) : string :=
  match s with
  | EmptyString => EmptyString
  | String x r => String (f x) (map_chars f r)
  end.

(** [s] is empty or ends with whitespace; [s] is empty or starts with
    whitespace: a word next to [s] is not glued to it. *)
Fixpoint ends_with_space (s : string) : bool :=
  match s with
  | EmptyString => false
  | String x EmptyString => isspace x
  | String _ r => ends_with_space r
  end.

Definition word_ends (s : string) : bool :=
  match s with
  | EmptyString => true
  | _ => ends_with_space s
  end.

Definition word_starts (s : string) : bool :=
  match s with
  | EmptyString => true
  | String x _ => isspace x
  end.

(** [s.startswith(p)]. *)
Definition startswith (s p : string) : bool := String.prefix p s.

(** [s[n:]]. *)
Fixpoint drop_chars (n : nat) (s : string) : string :=
  match n, s with
  | O, _ => s
  | S k, String _ r => drop_chars k r
  | S _, EmptyString => EmptyString
  end.

(** [s.replace(old, new)]: leftmost non-overlapping occurrences; after an
    occurrence the scan resumes behind it ([skip] counts the characters of
    the occurrence still to pass). An empty [old] matches before every
    character and at the end. *)
Fixpoint replace_go (old new : string) (skip : nat) (s : string) : string :=
  match s with
  | EmptyString => EmptyString
  | String c r =>
      match skip with
      | S k => replace_go old new k r
      | O =>
          if String.prefix old s
          then new ++ replace_go old new (String.length old - 1) r
          else String c (replace_go old new 0 r)
      end
  end.

Fixpoint intersperse_before (new : string) (s : string) : string :=
  match s with
  | EmptyString => new
  | String c r => new ++ String c (intersperse_before new r)
  end.

Definition replace (old new : string) (s : string) : string :=
  match old with
  | EmptyString => intersperse_before new s
  | _ => replace_go old new 0 s
  end.

(** [sep.join(items)] on values: every item must be text. *)
Fixpoint join_strs (sep : string) (items : list string) : string :=
  match items with
  | [] => EmptyString
  | [x] => x
  | x :: rest => x ++ sep ++ join_strs sep rest
  end.

Fixpoint all_text (items : list value) : option (list string) :=
  match items with
  | [] => Some []
  | VStr s :: rest => option_map (cons s) (all_text rest)
  | _ :: _ => None
  end.

Definition join (sep : string) (items : list value) : result value :=
  match all_text items with
  | Some strs => Ok (VStr (join_strs sep strs))
  | None => Raise TypeError
  end.

End Py.

Notation "'try!' x := r 'in' k" := (Py.bind r (fun x => k))
  (at level 10, x pattern, r at level 100, k at level 200).

(** ** Insertion-ordered dictionaries

    A Python [dict] keeps its keys in insertion order; iteration
    ([items()], [copy().items()]) follows that order.  Assigning to a key
    that is present keeps its position. *)

Module Dict.
Section Dict.
Context {K V : Type} `{EqDecision K}.

Definition t : Type := list (K * V).

Definition empty : t := [].

Fixpoint get (k : K) (d : t) : option V :=
  match d with
  | [] => None
  | (k', v) :: rest => if decide (k' = k) then Some v else get k rest
  end.

(** [k in d] *)
Definition contains (k : K) (d : t) : bool :=
  match get k d with Some _ => true | None => false end.

(** [d[k] = v] *)
Fixpoint set (k : K) (v : V) (d : t) : t :=
  match d with
  | [] => [(k, v)]
  | (k', v') :: rest =>
      if decide (k' = k) then (k', v) :: rest else (k', v') :: set k v rest
  end.

Fixpoint remove (k : K) (d : t) : t :=
  match d with
  | [] => []
  | (k', v') :: rest =>
      if decide (k' = k) then rest else (k', v') :: remove k rest
  end.

(** [d.pop(k)] without a default: the value and the dictionary without the
    key, or nothing when the key is missing (the caller raises [KeyError]
    and the dictionary is untouched). *)
Definition pop (k : K) (d : t) : option (V * t) :=
  match get k d with
  | Some v => Some (v, remove k d)
  | None => None
  end.

Definition keys (d : t) : list K := map fst d.
End Dict.
Arguments t : clear implicits.
End Dict.

(** ** curious/commands/utils.py *)

Module Utils.
Import Py.

(** *** [inspect.Signature] *)

Inductive ParameterKind : Type :=
  | POSITIONAL_ONLY
  | POSITIONAL_OR_KEYWORD
  | VAR_POSITIONAL
  | KEYWORD_ONLY
  | VAR_KEYWORD.

Inductive Annotation : Type :=
  | AnnEmpty
  | AnnType (type_name : string).

(** [inspect.Parameter]; [default = None] stands for
    [inspect.Parameter.empty]. *)
Record Param : Type := mkParam {
  name : string;
  kind : ParameterKind;
  default : option value;
  annotation : Annotation
}.

(** [signature.parameters], in declaration order. *)
Definition Signature : Type := list Param.

(** The command context as the converter sees it: the converter registry
    [ctx._lookup_converter(annotation)], each converter already applied to
    [ctx].  The registry belongs to [curious.commands.context]; a converter
    may reject its input by raising. *)
Record Context : Type := mkContext {
  _lookup_converter : Annotation -> value -> result value
}.

Fixpoint unsnoc (s : string) : option (string * ascii) :=
  match s with
  | EmptyString => None
  | String c r =>
      match unsnoc r with
      | None => Some (EmptyString, c)
      | Some (body, l) => Some (String c body, l)
      end
  end.

(** Modelled from the spec: the effect of [curious.util.replace_quotes]
    on a text, as the specification words it: strip one matching pair of
    surrounding double quotes if present. *)
Definition strip_quotes (s : string) : string :=
  match s with
  | String c r =>
      if Ascii.eqb c dquote then
        match unsnoc r with
        | Some (body, l) => if Ascii.eqb l dquote then body else s
        | None => s
        end
      else s
  | EmptyString => s
  end.

(** Modelled from the spec: [curious.util.replace_quotes] is imported by
    utils.py but its source is not among the sources of the package.  The
    specification describes it on a consumed token, which is a text
    ([strip_quotes]); any other value is rejected with a TypeError. *)
Definition replace_quotes (item : value) : result value :=
  match item with
  | VStr s => Ok (VStr (strip_quotes s))
  | _ => Raise TypeError
  end.

Definition is_positional (k : ParameterKind) : bool :=
  match k with
  | POSITIONAL_OR_KEYWORD | POSITIONAL_ONLY => true
  | _ => false
  end.

(** *** [_convert]

    The loop over the parameters after [ctx].  [args_it] is what the token
    iterator still holds. *)
Section Convert.
Variable ctx : Context.

(** One parameter that has obtained [arg]; [k] runs the rest of the loop
    on the iterator, the positional and the keyword results. *)
Definition consume (param : Param) (arg : value) (args_it : list string)
    (final_args : list value) (final_kwargs : Dict.t string value)
    (k : list string -> list value -> Dict.t string value ->
         result (list value * Dict.t string value))
    : result (list value * Dict.t string value) :=
  let converter := _lookup_converter ctx (annotation param) in
  match kind param with
  | POSITIONAL_OR_KEYWORD | POSITIONAL_ONLY =>
      try! arg' := replace_quotes arg in
      try! v := converter arg' in
      k args_it (final_args ++ [v]) final_kwargs
  | KEYWORD_ONLY =>
      let f := arg :: map VStr args_it in
      try! v := (if Nat.eqb (length f) 1 then converter arg
                 else try! joined := join " " f in converter joined) in
      k [] final_args (Dict.set (name param) v final_kwargs)
  | VAR_POSITIONAL =>
      let f := arg :: map VStr args_it in
      try! joined := join " " f in
      try! v := converter joined in
      k [] (final_args ++ [v]) final_kwargs
  | VAR_KEYWORD =>
      k args_it final_args final_kwargs
  end.

Fixpoint convert_loop (params : list Param) (args_it : list string)
    (final_args : list value) (final_kwargs : Dict.t string value)
    : result (list value * Dict.t string value) :=
  match params with
  | [] => Ok (final_args, final_kwargs)
  | param :: rest =>
      match args_it with
      | arg :: args_it' =>
          consume param (VStr arg) args_it' final_args final_kwargs
                  (convert_loop rest)
      | [] =>
          match kind param with
          | VAR_POSITIONAL => Ok (final_args, final_kwargs)
          | _ =>
              match default param with
              | None => Raise (MissingArgumentError (name param))
              | Some d =>
                  consume param d [] final_args final_kwargs
                          (convert_loop rest)
              end
          end
      end
  end.

(** The first parameter ([ctx]) is never converted. *)
Definition _convert (tokens : list string) (signature : Signature)
    : result (list value * Dict.t string value) :=
  convert_loop (tl signature) tokens [] Dict.empty.
End Convert.

(** *** [get_description]: the first line of the cleaned docstring.
    [cleandoc] is [inspect.cleandoc]; [doc] is [func.__doc__]. *)
Definition get_description (cleandoc : string -> string) (doc : option string)
    : option string :=
  match doc with
  | None => None
  | Some EmptyString => None
  | Some d => hd_error (split_on newline (cleandoc d))
  end.

(** *** [split_message_content] *)

(** The rest of a match of the lazy run after its first character: up to
    the first double quote, never across a line break. *)
Fixpoint lazy_close (s : string) : option string :=
  match s with
  | EmptyString => None
  | String c r =>
      if Ascii.eqb c dquote then Some (chr dquote)
      else if Ascii.eqb c newline then None
      else option_map (String c) (lazy_close r)
  end.

(** The match of the pattern (a double quote, one or more characters
    other than a line break, as few as possible, a double quote) at the
    start of [s], if any. *)
Definition match_quoted (s : string) : option string :=
  match s with
  | String c0 (String c1 r) =>
      if Ascii.eqb c0 dquote && negb (Ascii.eqb c1 newline)
      then option_map (fun t => String c0 (String c1 t)) (lazy_close r)
      else None
  | _ => None
  end.

(** [re.sub(pattern, replacer, content)]: at each position either the
    pattern matches, the replacement is emitted and the scan resumes
    behind the match ([skip] characters further), or the character is
    copied. *)
Fixpoint re_sub_go (replacer : string -> string) (skip : nat) (s : string)
    : string :=
  match s with
  | EmptyString => EmptyString
  | String c r =>
      match skip with
      | S k => re_sub_go replacer k r
      | O =>
          match match_quoted s with
          | Some m => replacer m ++ re_sub_go replacer (String.length m - 1) r
          | None => String c (re_sub_go replacer 0 r)
          end
      end
  end.

Definition re_sub_quoted (replacer : string -> string) (content : string)
    : string :=
  re_sub_go replacer 0 content.

Definition split_message_content (content : string) (delim : string)
    : list string :=
  let replacer m := Py.replace delim (chr NUL) m in
  let parts := Py.split (re_sub_quoted replacer content) in
  map (Py.replace (chr NUL) " ") parts.

(** The default [delim]. *)
Definition tokenize (content : string) : list string :=
  split_message_content content " ".

(** *** [prefix_check_factory] *)

Record Message : Type := mkMessage { content : string }.

(** What a prefix evaluates to: one text or an iterable of texts. *)
Inductive PrefixValue : Type :=
  | PrefixStr (p : string)
  | PrefixList (ps : list string).

(** The [prefix] argument of the factory; a callable receives the message
    (an awaitable result is awaited). *)
Inductive Prefix : Type :=
  | Static (v : PrefixValue)
  | Callable (f : Message -> PrefixValue).

Fixpoint first_prefix (content : string) (ps : list string) : option string :=
  match ps with
  | [] => None
  | i :: rest =>
      if startswith content i then Some i else first_prefix content rest
  end.

(** The closure [__inner] returned by the factory. The second test of the
    source inspects the factory argument [prefix] itself, not the value a
    callable returned. *)
Definition prefix_check_factory (prefix : Prefix) (message : Message)
    : result (option (string * list string)) :=
  let _prefix :=
    match prefix with
    | Static v => v
    | Callable f => f message
    end in
  let matched :=
    match _prefix with
    | PrefixStr p => if startswith (content message) p then Some p else None
    | PrefixList ps =>
        match prefix with
        | Static (PrefixList _) => first_prefix (content message) ps
        | _ => None
        end
    end in
  match matched with
  | None | Some EmptyString => Ok None
  | Some m =>
      let tokens :=
        tokenize (drop_chars (String.length m) (content message)) in
      match tokens with
      | [] => Raise IndexError
      | command_word :: rest => Ok (Some (command_word, rest))
      end
  end.

End Utils.

(** ** curious/commands/decorators.py

    The decorators annotate function objects in place: the attributes are
    written onto the object that is passed in, and that same object is
    returned.  Function objects therefore live in a store addressed by
    reference, and a subcommand list holds references. *)

Module Decorators.
Import Py.

Definition ref : Type := nat.

(** The attributes [command] writes.  [subcommand] is the closure
    [_subcommand(func)]; it is represented by the parent it captured. *)
Record Attrs : Type := mkAttrs {
  is_cmd : bool;
  cmd_name : string;
  cmd_description : option string;
  cmd_aliases : list string;
  cmd_subcommand : bool;
  cmd_subcommands : list ref;
  subcommand : ref
}.

(** A function object: what it has from its definition and, once
    annotated, the command attributes. *)
Record Function : Type := mkFunction {
  __name__ : string;
  __doc__ : option string;
  attrs : option Attrs
}.

Abbreviation Store := (gmap ref Function).

(** The keyword arguments of [command] and of [subcommand]. *)
Record Kwargs : Type := mkKwargs {
  kw_name : option string;
  kw_description : option string;
  kw_aliases : option (list string)
}.

Definition no_kwargs : Kwargs := mkKwargs None None None.

(** [x or y] on an optional text and on an optional list. *)
Definition or_str (x : option string) (y : string) : string :=
  match x with
  | None | Some EmptyString => y
  | Some s => s
  end.

Definition or_opt_str (x : option string) (y : option string) : option string :=
  match x with
  | None | Some EmptyString => y
  | Some s => Some s
  end.

Definition or_list (x : option (list string)) : list string :=
  match x with
  | None => []
  | Some l => l
  end.

(** Attribute writes on the command attributes. *)
Definition set_cmd_subcommand (a : Attrs) (flag : bool) : Attrs :=
  mkAttrs (is_cmd a) (cmd_name a) (cmd_description a) (cmd_aliases a)
          flag (cmd_subcommands a) (subcommand a).

Definition append_subcommand (a : Attrs) (cmd : ref) : Attrs :=
  mkAttrs (is_cmd a) (cmd_name a) (cmd_description a) (cmd_aliases a)
          (cmd_subcommand a) (cmd_subcommands a ++ [cmd]) (subcommand a).

Definition rename (a : Attrs) (new_name : string) : Attrs :=
  mkAttrs (is_cmd a) new_name (cmd_description a) (cmd_aliases a)
          (cmd_subcommand a) (cmd_subcommands a) (subcommand a).

(** The command attributes of the object at [r], if it is annotated. *)
Definition attrs_of (r : ref) (st : Store) : option Attrs :=
  match st !! r with
  | Some fn => attrs fn
  | None => None
  end.

(** Attribute access on an annotated function object. *)
Definition get_attrs (attr : string) (r : ref) (st : Store) : result Attrs :=
  match attrs_of r st with
  | Some a => Ok a
  | None => Raise (AttributeError attr)
  end.

Definition set_attrs (r : ref) (a : Attrs) (st : Store) : Store :=
  match st !! r with
  | Some fn => <[r := mkFunction (__name__ fn) (__doc__ fn) (Some a)]> st
  | None => st
  end.

Section WithCleandoc.
Variable cleandoc : string -> string.

(** The attributes [inner] writes onto [func]. *)
Definition fresh_attrs (kw : Kwargs) (fn : Function) (func : ref) : Attrs :=
  {| is_cmd := true;
     cmd_name := or_str (kw_name kw) (__name__ fn);
     cmd_description :=
       or_opt_str (kw_description kw)
                  (Utils.get_description cleandoc (__doc__ fn));
     cmd_aliases := or_list (kw_aliases kw);
     cmd_subcommand := false;
     cmd_subcommands := [];
     subcommand := func |}.

(** [command(kw...)(func)]: the function [inner].  It writes onto [func]
    and returns [func] itself.  (A reference outside the store has no
    counterpart in Python; the model raises.) *)
Definition command (kw : Kwargs) (func : ref) (st : Store)
    : result (ref * Store) :=
  match st !! func with
  | None => Raise (AttributeError "__name__")
  | Some fn => Ok (func, set_attrs func (fresh_attrs kw fn func) st)
  end.

(** [_subcommand(parent)(kw...)(func)]: the function [inner_2]. *)
Definition _subcommand (parent : ref) (kw : Kwargs) (func : ref) (st : Store)
    : result (ref * Store) :=
  try! annotated := command kw func st in
  let cmd := fst annotated in
  let st1 := snd annotated in
  try! a := get_attrs "cmd_subcommand" cmd st1 in
  let st2 := set_attrs cmd (set_cmd_subcommand a true) st1 in
  try! p := get_attrs "cmd_subcommands" parent st2 in
  let st3 := set_attrs parent (append_subcommand p cmd) st2 in
  Ok (cmd, st3).

(** [owner.subcommand(kw...)(func)]: fetch the closure stored on [owner]
    and apply it. *)
Definition apply_subcommand (owner : ref) (kw : Kwargs) (func : ref)
    (st : Store) : result (ref * Store) :=
  try! o := get_attrs "subcommand" owner st in
  _subcommand (subcommand o) kw func st.
End WithCleandoc.

(** [obj.cmd_name = new_name] and the reads that observe a descriptor:
    [obj.cmd_name], [obj.cmd_subcommands] and [obj.cmd_subcommands[-1]]. *)
Definition set_cmd_name (r : ref) (new_name : string) (st : Store)
    : result Store :=
  try! a := get_attrs "cmd_name" r st in
  Ok (set_attrs r (rename a new_name) st).

Definition read_cmd_name (r : ref) (st : Store) : result string :=
  try! a := get_attrs "cmd_name" r st in Ok (cmd_name a).

Definition read_subcommands (r : ref) (st : Store) : result (list ref) :=
  try! a := get_attrs "cmd_subcommands" r st in Ok (cmd_subcommands a).

Definition last_subcommand (r : ref) (st : Store) : result ref :=
  try! subs := read_subcommands r st in
  match last subs with
  | Some cmd => Ok cmd
  | None => Raise IndexError
  end.

End Decorators.

(** ** curious/commands/manager.py *)

Module Manager.
Import Py.

(** A command as the manager reads it: the attributes of an annotated
    function object that [load_plugin], [add_command], [lookup_command] and
    [get_command] inspect.  [handler] identifies the function object. *)
#[warnings="-register-all"]
Inductive Command : Type := mkCommand {
  handler : nat;
  cmd_name : string;
  cmd_aliases : list string;
  cmd_subcommands : list Command
}.

(** A plugin class: its identity, [__name__], the optional class attribute
    [plugin_name], what [_get_commands()] returns on an instance and how
    the hooks [plugin_load] and [plugin_unload] end. *)
Record PluginClass : Type := mkPluginClass {
  class_id : nat;
  __name__ : string;
  plugin_name : option string;
  _get_commands : list Command;
  plugin_load : result unit;
  plugin_unload : result unit
}.

(** A plugin instance, identified by [instance_id]. *)
Record Plugin : Type := mkPlugin {
  instance_id : nat;
  klass_of : PluginClass
}.

(** An [anyio] cancel scope, identified by [scope_id]. *)
Record CancelScope : Type := mkCancelScope { scope_id : nat }.

(** The type objects [unload_plugin] may compare: a plugin class or the
    class of cancel scopes. *)
Inductive PyType : Type :=
  | PluginType (k : PluginClass)
  | CancelScopeType.

(** [type(x)] for an instance and for a cancel scope. *)
Definition type_of_plugin (p : Plugin) : PyType := PluginType (klass_of p).
Definition type_of_scope (p : CancelScope) : PyType := CancelScopeType.

(** [t1 == t2] on type objects is identity. *)
Definition type_eqb (t1 t2 : PyType) : bool :=
  match t1, t2 with
  | PluginType k1, PluginType k2 => Nat.eqb (class_id k1) (class_id k2)
  | CancelScopeType, CancelScopeType => true
  | _, _ => false
  end.

(** [getattr(x, "plugin_name", type(x).__name__)] on a class and on an
    instance of it. *)
Definition name_of_class (k : PluginClass) : string :=
  match plugin_name k with
  | Some n => n
  | None => __name__ k
  end.

Definition name_of_plugin (p : Plugin) : string := name_of_class (klass_of p).

(** Keys of [_plugin_command_cache]: [load_plugin] stores under the plugin
    instance, [unload_plugin] pops a text.  An instance hashes and compares
    by identity and never equals a text. *)
Inductive CacheKey : Type :=
  | KeyInstance (instance : nat)
  | KeyStr (s : string).

#[global] Instance CacheKey_eq_dec : EqDecision CacheKey.
Proof. solve_decision. Defined.

(** What the manager did to the outside world, in order. *)
Inductive Event : Type :=
  | PluginLoadCalled (instance : nat)
  | TaskSpawned (instance : nat) (scope : nat)
  | ScopeCancelled (scope : nat)
  | PluginUnloadCalled (instance : nat).

Record CommandsManager : Type := mkManager {
  plugins : Dict.t string (Plugin * CancelScope);
  _plugin_command_cache : Dict.t CacheKey (Dict.t string Command);
  commands : Dict.t string Command;
  _module_plugins : Dict.t string (list Plugin);
  next_object : nat;
  events : list Event
}.

(** The manager after [__init__]. *)
Definition new_manager : CommandsManager :=
  mkManager Dict.empty Dict.empty Dict.empty Dict.empty 0 [].

Definition with_plugins m v :=
  mkManager v (_plugin_command_cache m) (commands m) (_module_plugins m)
            (next_object m) (events m).
Definition with_cache m v :=
  mkManager (plugins m) v (commands m) (_module_plugins m)
            (next_object m) (events m).
Definition with_commands m v :=
  mkManager (plugins m) (_plugin_command_cache m) v (_module_plugins m)
            (next_object m) (events m).
Definition with_module_plugins m v :=
  mkManager (plugins m) (_plugin_command_cache m) (commands m) v
            (next_object m) (events m).
Definition fresh m :=
  (next_object m,
   mkManager (plugins m) (_plugin_command_cache m) (commands m)
             (_module_plugins m) (S (next_object m)) (events m)).
Definition emit (e : Event) m :=
  mkManager (plugins m) (_plugin_command_cache m) (commands m)
            (_module_plugins m) (next_object m) (events m ++ [e]).

(** [table[command.cmd_name] = command], then every alias. *)
Definition index_command (command : Command) (table : Dict.t string Command)
    : Dict.t string Command :=
  fold_left (fun t alias => Dict.set alias command t)
            (cmd_aliases command)
            (Dict.set (cmd_name command) command table).

Definition build_table (commands : list Command) : Dict.t string Command :=
  fold_left (fun t c => index_command c t) commands Dict.empty.

(** [self._module_plugins[module].append(instance)] on a [defaultdict]. *)
Definition module_append (module : string) (instance : Plugin)
    (d : Dict.t string (list Plugin)) : Dict.t string (list Plugin) :=
  match Dict.get module d with
  | Some l => Dict.set module (l ++ [instance]) d
  | None => Dict.set module [instance] d
  end.

(** [load_plugin(klass, module=module)] *)
Definition load_plugin (klass : PluginClass) (module : option string)
    (m : CommandsManager) : result Plugin * CommandsManager :=
  let plugin_name := name_of_class klass in
  let '(id, m) := fresh m in
  let instance := mkPlugin id klass in
  let m := emit (PluginLoadCalled id) m in
  match plugin_load klass with
  | Raise e => (Raise e, m)
  | Ok _ =>
      let '(sid, m) := fresh m in
      let new_scope := mkCancelScope sid in
      let m := emit (TaskSpawned id sid) m in
      let m := with_plugins m
                 (Dict.set plugin_name (instance, new_scope) (plugins m)) in
      let m := match module with
               | Some mo => with_module_plugins m
                              (module_append mo instance (_module_plugins m))
               | None => m
               end in
      let table := build_table (_get_commands klass) in
      let m := with_cache m
                 (Dict.set (KeyInstance id) table (_plugin_command_cache m)) in
      (Ok instance, m)
  end.

(** The scan of [unload_plugin] over [self.plugins.copy().items()]: each
    value is unpacked as [(s, p)], so [s] is the instance and [p] the
    cancel scope, and the test is on [type(p)]. *)
Fixpoint find_by_type (klass : PyType)
    (items : list (string * (Plugin * CancelScope))) : option string :=
  match items with
  | [] => None
  | (k, (s, p)) :: rest =>
      if type_eqb (type_of_scope p) klass then Some k
      else find_by_type klass rest
  end.

(** [unload_plugin(klass)]; [klass] is a text or a type object. *)
Definition unload_plugin (klass : string + PyType) (m : CommandsManager)
    : result (option Plugin) * CommandsManager :=
  let popped : result (option (Plugin * CancelScope)) * CommandsManager :=
    match klass with
    | inl name =>
        match Dict.pop name (plugins m) with
        | Some (entry, rest) => (Ok (Some entry), with_plugins m rest)
        | None => (Raise (KeyError name), m)
        end
    | inr ty =>
        match find_by_type ty (plugins m) with
        | Some k =>
            match Dict.pop k (plugins m) with
            | Some (entry, rest) => (Ok (Some entry), with_plugins m rest)
            | None => (Raise (KeyError k), m)
            end
        | None => (Ok None, m)
        end
    end in
  match popped with
  | (Raise e, m) => (Raise e, m)
  | (Ok None, m) => (Ok None, m)
  | (Ok (Some (plugin, scope)), m) =>
      let m := emit (ScopeCancelled (scope_id scope)) m in
      let m := emit (PluginUnloadCalled (instance_id plugin)) m in
      match plugin_unload (klass_of plugin) with
      | Raise e => (Raise e, m)
      | Ok _ =>
          let key := name_of_plugin plugin in
          match Dict.pop (KeyStr key) (_plugin_command_cache m) with
          | Some (_, rest) => (Ok (Some plugin), with_cache m rest)
          | None => (Raise (KeyError key), m)
          end
      end
  end.

(** [lookup_command(name)]: the standalone table, then each plugin table
    in the order of the cache. *)
Fixpoint lookup_in_tables (name : string)
    (tables : list (CacheKey * Dict.t string Command)) : option Command :=
  match tables with
  | [] => None
  | (_, commands) :: rest =>
      match Dict.get name commands with
      | Some c => Some c
      | None => lookup_in_tables name rest
      end
  end.

Definition lookup_command (m : CommandsManager) (name : string)
    : option Command :=
  match Dict.get name (commands m) with
  | Some c => Some c
  | None => lookup_in_tables name (_plugin_command_cache m)
  end.

(** The [filter] predicate of [get_command]. *)
Definition matches (token : string) (cmd : Command) : bool :=
  String.eqb (cmd_name cmd) token
  || existsb (String.eqb token) (cmd_aliases cmd).

(** The loop of [get_command] over [sp[1:]]. *)
Fixpoint walk_subcommands (command : Command) (tokens : list string)
    : option Command :=
  match tokens with
  | [] => Some command
  | token :: rest =>
      match List.find (matches token) (cmd_subcommands command) with
      | Some sub => walk_subcommands sub rest
      | None => None
      end
  end.

Definition get_command (m : CommandsManager) (command_name : string)
    : option Command :=
  match split_on space command_name with
  | [] => None
  | first :: rest =>
      match lookup_command m first with
      | None => None
      | Some command => walk_subcommands command rest
      end
  end.

(** Every key of the command-table cache is a plugin instance: what holds
    of a manager that only [load_plugin] and [unload_plugin] have
    touched. *)
Definition cache_keyed_by_instances (m : CommandsManager) : Prop :=
  forall key, In key (Dict.keys (_plugin_command_cache m)) ->
              exists i, key = KeyInstance i.

(** [add_command(command)] for an annotated function. *)
Definition add_command (command : Command) (m : CommandsManager)
    : CommandsManager :=
  with_commands m (index_command command (commands m)).

(** The two-tier lookup in the words of the specification, to be compared
    with [lookup_command]: the standalone command table first; then, only
    when that table has no entry for the name, the command tables of the
    loaded plugins in their order, the first table that has the name
    deciding.  [p] is what the name resolves to. *)
Definition two_tier_lookup (m : CommandsManager) (name : string)
    (p : Command) : Prop :=
  Dict.get name (commands m) = Some p \/
  (Dict.get name (commands m) = None /\
   exists before key table after,
     _plugin_command_cache m = before ++ (key, table) :: after /\
     Forall (fun kt => Dict.get name (snd kt) = None) before /\
     Dict.get name table = Some p).

(** Every instance that keys the command-table cache was created
    earlier: what [load_plugin], which numbers the objects it creates,
    keeps true. *)
Definition instances_are_older (m : CommandsManager) : Prop :=
  forall i, In (KeyInstance i) (Dict.keys (_plugin_command_cache m)) ->
            i < next_object m.



(** What a module holds under a name, as the predicate of
    [load_plugins_from] tells its members apart: a proper subclass of
    [Plugin], the class [Plugin] itself, another class, or a value that is
    no class. *)
Inductive Member : Type :=
  | PluginSubclass (k : PluginClass)
  | PluginBase
  | OtherClass
  | NoClass.

Definition predicate (item : Member) : option PluginClass :=
  match item with
  | PluginSubclass k => Some k
  | _ => None
  end.

(** The loop of [load_plugins_from] over the members that pass the
    predicate: the first failing [load_plugin] ends it. *)
Fixpoint load_each (classes : list PluginClass) (module : string)
    (m : CommandsManager) : result unit * CommandsManager :=
  match classes with
  | [] => (Ok tt, m)
  | plugin_class :: rest =>
      match load_plugin plugin_class (Some module) m with
      | (Raise e, m') => (Raise e, m')
      | (Ok _, m') => load_each rest module m'
      end
  end.

(** [load_plugins_from(import_path)] once [importlib.import_module] has
    returned the module; [members] is what [inspect.getmembers(mod)]
    lists, in its order (by name). *)
Definition load_plugins_from (import_path : string)
    (members : list (string * Member)) (m : CommandsManager)
    : result unit * CommandsManager :=
  load_each (omap (fun nm => predicate (snd nm)) members) import_path m.

(** The loop of [unload_plugins_from]: the unload hook, then the pop from
    the registry. *)
Fixpoint unload_each (ps : list Plugin) (m : CommandsManager)
    : result unit * CommandsManager :=
  match ps with
  | [] => (Ok tt, m)
  | plugin :: rest =>
      let m := emit (PluginUnloadCalled (instance_id plugin)) m in
      match plugin_unload (klass_of plugin) with
      | Raise e => (Raise e, m)
      | Ok _ =>
          let name := name_of_plugin plugin in
          match Dict.pop name (plugins m) with
          | Some (_, rest') => unload_each rest (with_plugins m rest')
          | None => (Raise (KeyError name), m)
          end
      end
  end.

(** [unload_plugins_from(import_path)] for a text [import_path];
    [sys_modules] holds the keys of [sys.modules].  A module without an
    entry in [_module_plugins] has the empty list (a [defaultdict]). *)
Definition unload_plugins_from (import_path : string)
    (sys_modules : list string) (m : CommandsManager)
    : result unit * (list string * CommandsManager) :=
  if existsb (String.eqb import_path) sys_modules then
    let ps := match Dict.get import_path (_module_plugins m) with
              | Some l => l
              | None => []
              end in
    match unload_each ps m with
    | (Raise e, m') => (Raise e, (sys_modules, m'))
    | (Ok _, m') =>
        (Ok tt,
         (List.filter (fun k => negb (String.eqb import_path k)) sys_modules,
          with_module_plugins m'
            (Dict.remove import_path (_module_plugins m'))))
    end
  else (Raise (KeyError import_path), (sys_modules, m)).

(** *** [handle_commands] *)

(** The author of a message ([message.author.user]) and the client. *)
Record User : Type := mkUser { user_id : nat; bot : bool }.

Record Incoming : Type := mkIncoming {
  author : option User;
  guild_id : option nat;
  message : Utils.Message
}.

Record Client : Type := mkClient { client_user : User; bot_type : Z }.

(** How [ctx.run_contained_command()] ends: normally, with a
    [CommandsError] carrying its [event_name], or with another
    exception. *)
Inductive RunOutcome : Type :=
  | Completed
  | CommandsError (event_name : string)
  | OtherError (e : exn).

(** A flag of [bot_type] is set. *)
Definition flag (bt mask : Z) : bool := negb (Z.eqb (Z.land bt mask) 0).

(** [handle_commands(ctx, message)]: the result, and the signals fired
    through [client.events.fire_event], in order.  [message_check] is the
    manager's check function, [run] what running the command found by the
    context does. *)
Definition handle_commands (client : Client)
    (message_check : Utils.Message -> result (option (string * list string)))
    (run : string -> list string -> RunOutcome)
    (msg : Incoming) : result unit * list string :=
  match author msg with
  | None => (Ok tt, [])
  | Some u =>
      if bot u && flag (bot_type client) 8 then (Ok tt, [])
      else if negb (Nat.eqb (user_id u) (user_id (client_user client)))
              && flag (bot_type client) 64 then (Ok tt, [])
      else if (match guild_id msg with Some _ => true | None => false end)
              && flag (bot_type client) 32 then (Ok tt, [])
      else if (match guild_id msg with Some _ => false | None => true end)
              && flag (bot_type client) 16 then (Ok tt, [])
      else
        match message_check (message msg) with
        | Raise e => (Raise e, [])
        | Ok None => (Ok tt, [])
        | Ok (Some (command_word, tokens)) =>
            match run command_word tokens with
            | Completed => (Ok tt, [])
            | CommandsError event_name =>
                (Ok tt, ["command_error"; event_name])
            | OtherError e => (Raise e, [])
            end
        end
  end.

End Manager.

(** * Sample inputs

    Concrete contexts, signatures, stores and managers on which the
    operations are run below. *)

Module Samples.
Import Py.

Module Conv.
Import Utils.

(** Sample registry used to run the converter: the converter of [int]
    accepts decimal digits only, every other annotation passes its
    argument through. *)
Fixpoint digits_value (acc : Z) (s : string) : option Z :=
  match s with
  | EmptyString => Some acc
  | String c r =>
      let n := nat_of_ascii c in
      if Nat.leb 48 n && Nat.leb n 57
      then digits_value (10 * acc + Z.of_nat (n - 48)) r
      else None
  end.

Definition int_converter (v : value) : result value :=
  match v with
  | VStr (String c r) =>
      match digits_value 0 (String c r) with
      | Some z => Ok (VInt z)
      | None => Raise (ConversionFailedError "int")
      end
  | _ => Raise (ConversionFailedError "int")
  end.

Definition sample_ctx : Context :=
  mkContext (fun ann =>
    match ann with
    | AnnType "int" => int_converter
    | _ => fun v => Ok v
    end).

Definition p_ctx : Param := mkParam "ctx" POSITIONAL_OR_KEYWORD None AnnEmpty.
Definition p_a : Param := mkParam "a" POSITIONAL_OR_KEYWORD None (AnnType "int").
Definition p_b : Param := mkParam "b" KEYWORD_ONLY None (AnnType "str").
Definition p_n : Param :=
  mkParam "n" POSITIONAL_OR_KEYWORD (Some (VStr "none")) (AnnType "int").
Definition p_k : Param :=
  mkParam "k" POSITIONAL_OR_KEYWORD (Some (VStr "7")) (AnnType "int").
Definition p_i : Param :=
  mkParam "i" POSITIONAL_OR_KEYWORD (Some (VInt 3)) (AnnType "int").
Definition p_args : Param := mkParam "args" VAR_POSITIONAL None AnnEmpty.
Definition p_kwargs : Param := mkParam "kwargs" VAR_KEYWORD None AnnEmpty.
Definition p_c : Param := mkParam "c" KEYWORD_ONLY None AnnEmpty.
Definition p_s : Param := mkParam "s" POSITIONAL_ONLY None (AnnType "str").

End Conv.

Module Mgr.
Import Manager.

Definition ping : Command := mkCommand 7 "ping" ["p"] [].
Definition Ping : PluginClass :=
  mkPluginClass 1 "Ping" None [ping] (Ok tt) (Ok tt).

(** The manager once [Ping] is loaded. *)
Definition loaded : CommandsManager := snd (load_plugin Ping None new_manager).

Definition role_add : Command := mkCommand 9 "add" ["a"] [].
Definition role : Command := mkCommand 8 "role" [] [role_add].
Definition with_role : CommandsManager := add_command role new_manager.

(** A plugin that defines a command [role] of its own, with another
    subcommand; the manager with that plugin alone, and with the standalone
    [role] added on top of it. *)
Definition role_grant : Command := mkCommand 21 "grant" ["g"] [].
Definition plugin_role : Command := mkCommand 20 "role" [] [role_grant].
Definition Roles : PluginClass :=
  mkPluginClass 4 "Roles" None [plugin_role] (Ok tt) (Ok tt).
Definition roles_loaded : CommandsManager :=
  snd (load_plugin Roles None loaded).
Definition roles_shadowed : CommandsManager := add_command role roles_loaded.

(** A plugin whose load hook fails, a plugin with a [plugin_name], and a
    module that defines both working plugins next to other members. *)
Definition Broken : PluginClass :=
  mkPluginClass 2 "Broken" None [] (Raise TypeError) (Ok tt).
Definition echo : Command := mkCommand 10 "echo" ["say"] [].
Definition Echo : PluginClass :=
  mkPluginClass 3 "Echo" (Some "echo_plugin") [echo] (Ok tt) (Ok tt).
Definition members : list (string * Member) :=
  [("Echo", PluginSubclass Echo); ("Ping", PluginSubclass Ping);
   ("Plugin", PluginBase); ("logger", NoClass)].

(** A standalone command with a subcommand that has one of its own. *)
Definition role_add_many : Command := mkCommand 11 "many" [] [].
Definition role_add_deep : Command := mkCommand 9 "add" ["a"] [role_add_many].
Definition role_deep : Command := mkCommand 8 "role" ["r"] [role_add_deep].
Definition with_role_deep : CommandsManager :=
  add_command role_deep new_manager.

(** The manager after [Echo] alone was loaded from the module. *)
Definition echo_loaded : CommandsManager :=
  snd (load_plugin Echo (Some "plugins") new_manager).

(** The manager after [load_plugins_from] on that module, and after the
    module was unloaded again. *)
Definition batch : CommandsManager :=
  snd (load_plugins_from "plugins" members new_manager).
Definition batch_unloaded : CommandsManager :=
  snd (snd (unload_plugins_from "plugins" ["sys"; "plugins"] batch)).

Definition me : User := mkUser 1 true.
Definition someone : User := mkUser 2 false.

End Mgr.

Module Text.

Definition q : string := chr dquote.
Definition tab : string := chr (ascii_of_nat 9).

(** The example of the docstring of [split_message_content]. *)
Definition docstring_content : string :=
  "!send " ++ q ++ "Fuyukai desu" ++ q ++ " " ++ q ++ "Hello, world!" ++ q.

(** A quoted run glued to the text before it. *)
Definition glued : string := "!set name=" ++ q ++ "John Smith" ++ q.

(** A quoted run in plain text, and one whose words are a tab apart. *)
Definition send_quoted : string := "say " ++ q ++ "hello world" ++ q ++ " now".
Definition quoted_tab : string := "say " ++ q ++ "a" ++ tab ++ "b" ++ q.

End Text.

Module Deco.
Import Decorators.

(** [inspect.cleandoc] is not exercised by functions without a docstring. *)
Definition cleandoc (doc : string) : string := doc.

(** Three plain functions; then [A] and [B] annotated with [command()]. *)
Definition A : ref := 0.
Definition B : ref := 1.
Definition f : ref := 2.

Definition plain : Store :=
  <[f := mkFunction "f" None None]>
    (<[B := mkFunction "B" None None]>
       (<[A := mkFunction "A" None None]> ∅)).

Definition parents : Store :=
  match command cleandoc no_kwargs A plain with
  | Ok (_, st) =>
      match command cleandoc no_kwargs B st with
      | Ok (_, st') => st'
      | Raise _ => st
      end
  | Raise _ => plain
  end.

(** [parents] after [A.subcommand()(f)]: [A] has one subcommand. *)
Definition with_child : Store :=
  match apply_subcommand cleandoc A no_kwargs f parents with
  | Ok (_, st) => st
  | Raise _ => parents
  end.

(** [A.subcommand()(f)] followed by [B.subcommand()(f)]. *)
Definition both_decorated : result Store :=
  try! r1 := apply_subcommand cleandoc A no_kwargs f parents in
  try! r2 := apply_subcommand cleandoc B no_kwargs f (snd r1) in
  Ok (snd r2).

(** The name of the descriptor reached through [B] as it is. *)
Definition read_through_B : result string :=
  try! st := both_decorated in
  try! dB := last_subcommand B st in
  read_cmd_name dB st.

(** Rename the descriptor reached through [A], read the one reached
    through [B]. *)
Definition rename_through_A_read_through_B : result (ref * ref * string) :=
  try! st := both_decorated in
  try! dA := last_subcommand A st in
  try! dB := last_subcommand B st in
  try! st' := set_cmd_name dA "renamed" st in
  try! n := read_cmd_name dB st' in
  Ok (dA, dB, n).

End Deco.

End Samples.

(** * Properties *)

(** ** The argument converter *)

Module ConvertProps.
Import Py Utils Samples.Conv.

Lemma strip_quotes_5 : strip_quotes "5" = "5".
Proof. reflexivity. Qed.

(** The loop step of an ordinary positional parameter that has its
    argument. *)
Lemma consume_positional ctx p arg it fa fk k :
  is_positional (kind p) = true ->
  consume ctx p arg it fa fk k =
    (try! arg' := replace_quotes arg in
     try! v := _lookup_converter ctx (annotation p) arg' in
     k it (fa ++ [v]) fk).
Proof.
  unfold consume. destruct (kind p); simpl; intros H; try discriminate H;
    reflexivity.
Qed.

Lemma positional_not_var p :
  is_positional (kind p) = true -> kind p <> VAR_POSITIONAL.
Proof. intros H E. rewrite E in H. discriminate H. Qed.

(** With the iterator exhausted, a parameter that is not variadic
    takes the default path. *)
Lemma convert_loop_exhausted ctx p rest fa fk :
  kind p <> VAR_POSITIONAL ->
  convert_loop ctx (p :: rest) [] fa fk =
    match default p with
    | None => Raise (MissingArgumentError (name p))
    | Some d => consume ctx p d [] fa fk (convert_loop ctx rest)
    end.
Proof. simpl. destruct (kind p); intros H; try reflexivity. congruence. Qed.

(** C6: tokens 5, rest, of, line against (ctx, a positional, b
    keyword-only) give the positional arguments [convert_a 5] and the
    keyword arguments b = convert_b of the text rest of line: the
    keyword-only parameter takes all remaining tokens, joined by single
    spaces. *)
Theorem convert_positional_then_keyword_only
    (ctx : Context) (p0 a b : Param) (va vb : value) :
  is_positional (kind a) = true ->
  kind b = KEYWORD_ONLY ->
  _lookup_converter ctx (annotation a) (VStr "5") = Ok va ->
  _lookup_converter ctx (annotation b) (VStr "rest of line") = Ok vb ->
  _convert ctx ["5"; "rest"; "of"; "line"] [p0; a; b]
    = Ok ([va], Dict.set (name b) vb Dict.empty).
Proof.
  intros Ha Hb Hva Hvb. unfold _convert. simpl tl.
  change (convert_loop ctx [a; b] ["5"; "rest"; "of"; "line"] [] Dict.empty)
    with (consume ctx a (VStr "5") ["rest"; "of"; "line"] [] Dict.empty
                  (convert_loop ctx [b])).
  rewrite (consume_positional _ _ _ _ _ _ _ Ha).
  unfold replace_quotes. rewrite strip_quotes_5. simpl. rewrite Hva. simpl.
  unfold consume. rewrite Hb. simpl.
  change ("rest" ++ " " ++ "of" ++ " " ++ "line")%string with "rest of line".
  rewrite Hvb. reflexivity.
Qed.

Lemma convert_positional_then_keyword_only_witness :
  _convert sample_ctx ["5"; "rest"; "of"; "line"] [p_ctx; p_a; p_b]
    = Ok ([VInt 5], [("b", VStr "rest of line")]).
Proof.
  apply (convert_positional_then_keyword_only sample_ctx p_ctx p_a p_b);
    reflexivity.
Defined.

(** C7, as stated, fails: a declared default does not make the conversion
    of an empty token list complete without error.  Here the default of
    [n] is the text none and the converter of [int] rejects it. *)
Lemma default_may_be_rejected :
  default p_n = Some (VStr "none") /\
  is_positional (kind p_n) = true /\
  _convert sample_ctx [] [p_ctx; p_n] = Raise (ConversionFailedError "int").
Proof. repeat split. Qed.

(** C7 (amended): an empty token list against (ctx, p) with [p] an ordinary
    positional parameter raises MissingArgument naming [p] when [p] has no
    default; when [p] has a default, the default takes the place of the
    missing token and goes through quote stripping and the converter of
    [p], and the conversion completes, with the converted default as the
    only positional argument, whenever both accept it. *)
Theorem convert_no_tokens_single_positional
    (ctx : Context) (p0 p : Param) :
  is_positional (kind p) = true ->
  (default p = None ->
     _convert ctx [] [p0; p] = Raise (MissingArgumentError (name p))) /\
  (forall d d' v,
     default p = Some d ->
     replace_quotes d = Ok d' ->
     _lookup_converter ctx (annotation p) d' = Ok v ->
     _convert ctx [] [p0; p] = Ok ([v], Dict.empty)).
Proof.
  intros Hp. unfold _convert. simpl tl.
  rewrite (convert_loop_exhausted ctx p [] [] Dict.empty
             (positional_not_var p Hp)).
  split.
  - intros ->. reflexivity.
  - intros d d' v -> Hq Hc.
    rewrite (consume_positional _ _ _ _ _ _ _ Hp), Hq. simpl.
    rewrite Hc. reflexivity.
Qed.

Lemma convert_no_tokens_single_positional_witness :
  _convert sample_ctx [] [p_ctx; p_a] = Raise (MissingArgumentError "a") /\
  _convert sample_ctx [] [p_ctx; p_k] = Ok ([VInt 7], Dict.empty).
Proof.
  split.
  - apply (convert_no_tokens_single_positional sample_ctx p_ctx p_a);
      reflexivity.
  - apply (proj2 (convert_no_tokens_single_positional sample_ctx p_ctx p_k
                    eq_refl) (VStr "7") (VStr "7") (VInt 7));
      reflexivity.
Defined.

(** C10: when the iterator is exhausted at an ordinary positional
    parameter with default [d], the loop continues with [d] in the place
    of a token: [d] is quote-stripped, then converted, and the converted
    value is appended to the positional arguments.  A rejection by either
    step is the outcome of the conversion, and a text default is treated
    exactly like a last token holding that text. *)
Theorem default_is_stripped_and_converted
    (ctx : Context) (p : Param) (rest : list Param) (d : value)
    (fa : list value) (fk : Dict.t string value) :
  is_positional (kind p) = true ->
  default p = Some d ->
  convert_loop ctx (p :: rest) [] fa fk =
    (try! d' := replace_quotes d in
     try! v := _lookup_converter ctx (annotation p) d' in
     convert_loop ctx rest [] (fa ++ [v]) fk)
  /\ (forall e, replace_quotes d = Raise e ->
        convert_loop ctx (p :: rest) [] fa fk = Raise e)
  /\ (forall d' e, replace_quotes d = Ok d' ->
        _lookup_converter ctx (annotation p) d' = Raise e ->
        convert_loop ctx (p :: rest) [] fa fk = Raise e)
  /\ (forall s, d = VStr s ->
        convert_loop ctx (p :: rest) [] fa fk =
        convert_loop ctx (p :: rest) [s] fa fk).
Proof.
  intros Hp Hd.
  assert (E : convert_loop ctx (p :: rest) [] fa fk =
              (try! d' := replace_quotes d in
               try! v := _lookup_converter ctx (annotation p) d' in
               convert_loop ctx rest [] (fa ++ [v]) fk)).
  { rewrite (convert_loop_exhausted ctx p rest fa fk
               (positional_not_var p Hp)), Hd.
    apply consume_positional, Hp. }
  split; [exact E|]. split; [|split].
  - intros e He. rewrite E, He. reflexivity.
  - intros d' e Hq Hc. rewrite E, Hq. simpl. rewrite Hc. reflexivity.
  - intros s ->. rewrite E. simpl convert_loop at 2.
    symmetry. apply consume_positional, Hp.
Qed.

Lemma default_is_stripped_and_converted_witness :
  convert_loop sample_ctx [p_n] [] [] Dict.empty
    = Raise (ConversionFailedError "int").
Proof.
  apply (proj1 (proj2 (proj2 (default_is_stripped_and_converted
           sample_ctx p_n [] (VStr "none") [] Dict.empty eq_refl eq_refl)))
           (VStr "none") (ConversionFailedError "int"));
    reflexivity.
Defined.

(** A default that is not a text stops at the quote-stripping step (as
    [replace_quotes] is modelled). *)
Example default_not_text_is_rejected :
  _convert sample_ctx [] [p_ctx; p_i] = Raise TypeError.
Proof. reflexivity. Qed.

End ConvertProps.

(** ** Dictionaries *)

Module DictProps.
Section DictProps.
Context {K V : Type} `{EqDecision K}.
Implicit Types (d : Dict.t K V) (k : K) (v : V).

Lemma get_set_same k v d : Dict.get k (Dict.set k v d) = Some v.
Proof.
  induction d as [|[k' v'] d IH]; simpl.
  - destruct (decide (k = k)); congruence.
  - destruct (decide (k' = k)) as [E|N]; simpl.
    + destruct (decide (k' = k)); congruence.
    + destruct (decide (k' = k)); [congruence|exact IH].
Qed.

Lemma get_set_other k k' v d :
  k <> k' -> Dict.get k' (Dict.set k v d) = Dict.get k' d.
Proof.
  intros N. induction d as [|[k0 v0] d IH]; simpl.
  - destruct (decide (k = k')); congruence.
  - destruct (decide (k0 = k)) as [E|N0]; simpl.
    + subst k0. destruct (decide (k = k')); congruence.
    + destruct (decide (k0 = k')); [reflexivity|exact IH].
Qed.

Lemma get_set_is_Some k k' v d :
  Dict.get k' d <> None -> Dict.get k' (Dict.set k v d) <> None.
Proof.
  intros Hd. destruct (decide (k = k')) as [->|N].
  - rewrite get_set_same. discriminate.
  - rewrite (get_set_other _ _ _ _ N). exact Hd.
Qed.

Lemma pop_absent k d : Dict.get k d = None -> Dict.pop k d = None.
Proof. unfold Dict.pop. intros ->. reflexivity. Qed.

Lemma pop_set_same k v d :
  Dict.pop k (Dict.set k v d) = Some (v, Dict.remove k (Dict.set k v d)).
Proof. unfold Dict.pop. rewrite get_set_same. reflexivity. Qed.

(** A key outside the keys of the dictionary is absent. *)
Lemma get_not_key k d : ~ In k (Dict.keys d) -> Dict.get k d = None.
Proof.
  induction d as [|[k' v'] d IH]; simpl; [reflexivity|].
  intros Hn. destruct (decide (k' = k)); [tauto|]. apply IH. tauto.
Qed.

Lemma keys_set k v d :
  forall x, In x (Dict.keys (Dict.set k v d)) -> x = k \/ In x (Dict.keys d).
Proof.
  induction d as [|[k' v'] d IH]; simpl; intros x Hx.
  - destruct Hx as [<-|[]]. left. reflexivity.
  - destruct (decide (k' = k)); simpl in Hx.
    + destruct Hx as [<-|Hx]; [right; left; reflexivity|right; right; exact Hx].
    + destruct Hx as [<-|Hx]; [right; left; reflexivity|].
      destruct (IH x Hx); [left|right; right]; assumption.
Qed.
End DictProps.
End DictProps.


(** ** The plugin lifecycle *)

Module LifecycleProps.
Import Py Manager Samples.Mgr.

Lemma new_manager_cache_keyed : cache_keyed_by_instances new_manager.
Proof. intros key []. Qed.

Lemma no_text_key m s :
  cache_keyed_by_instances m ->
  Dict.get (KeyStr s) (_plugin_command_cache m) = None.
Proof.
  intros Hm. apply DictProps.get_not_key. intros Hin.
  destruct (Hm _ Hin) as [i Hi]. discriminate Hi.
Qed.

(** The scan by type never selects an entry when asked for a plugin
    class: the value it tests is the cancel scope. *)
Lemma find_by_type_plugin_class k items :
  find_by_type (PluginType k) items = None.
Proof.
  induction items as [|[key [s p]] items IH]; simpl; [reflexivity|exact IH].
Qed.

(** Indexing keeps what is indexed and adds the name and the aliases. *)
Lemma fold_set_keeps (c : Command) aliases (t : Dict.t string Command) n :
  Dict.get n t <> None ->
  Dict.get n (fold_left (fun t alias => Dict.set alias c t) aliases t) <> None.
Proof.
  revert t. induction aliases as [|a aliases IH]; simpl; intros t Ht.
  - exact Ht.
  - apply IH, DictProps.get_set_is_Some, Ht.
Qed.

Lemma fold_set_adds (c : Command) aliases (t : Dict.t string Command) n :
  In n aliases ->
  Dict.get n (fold_left (fun t alias => Dict.set alias c t) aliases t) <> None.
Proof.
  revert t. induction aliases as [|a aliases IH]; simpl; intros t [].
  - subst a. apply fold_set_keeps. rewrite DictProps.get_set_same.
    discriminate.
  - apply IH. assumption.
Qed.

Lemma index_command_keeps c t n :
  Dict.get n t <> None -> Dict.get n (index_command c t) <> None.
Proof.
  intros Ht. unfold index_command.
  apply fold_set_keeps, DictProps.get_set_is_Some, Ht.
Qed.

Lemma index_command_adds c t n :
  n = cmd_name c \/ In n (cmd_aliases c) ->
  Dict.get n (index_command c t) <> None.
Proof.
  unfold index_command. intros [->|Hin].
  - apply fold_set_keeps. rewrite DictProps.get_set_same. discriminate.
  - apply fold_set_adds, Hin.
Qed.

Lemma fold_index_keeps cs t n :
  Dict.get n t <> None ->
  Dict.get n (fold_left (fun t c => index_command c t) cs t) <> None.
Proof.
  revert t. induction cs as [|c cs IH]; simpl; intros t Ht.
  - exact Ht.
  - apply IH, index_command_keeps, Ht.
Qed.

Lemma build_table_has cs c n :
  In c cs ->
  n = cmd_name c \/ In n (cmd_aliases c) ->
  Dict.get n (build_table cs) <> None.
Proof.
  unfold build_table. generalize (@Dict.empty string Command).
  induction cs as [|c0 cs IH]; simpl; intros t [] Hn.
  - subst c0. apply fold_index_keeps, index_command_adds, Hn.
  - apply IH; assumption.
Qed.

(** A name present in one cached table resolves through the second tier. *)
Lemma lookup_in_tables_finds n key table tables :
  Dict.get key tables = Some table ->
  Dict.get n table <> None ->
  lookup_in_tables n tables <> None.
Proof.
  induction tables as [|[k0 t0] tables IH]; simpl; [discriminate|].
  destruct (decide (k0 = key)).
  - intros [= ->] Hn. destruct (Dict.get n table); [discriminate|congruence].
  - intros Hk Hn. destruct (Dict.get n t0); [discriminate|].
    apply IH; assumption.
Qed.

Lemma lookup_command_finds m n key table :
  Dict.get key (_plugin_command_cache m) = Some table ->
  Dict.get n table <> None ->
  lookup_command m n <> None.
Proof.
  intros Hk Hn. unfold lookup_command.
  destruct (Dict.get n (commands m)); [discriminate|].
  eapply lookup_in_tables_finds; eassumption.
Qed.

(** What a successful [load_plugin] leaves behind. *)
Lemma load_plugin_ok klass module m inst m1 :
  load_plugin klass module m = (Ok inst, m1) ->
  inst = mkPlugin (next_object m) klass /\
  plugins m1 =
    Dict.set (name_of_class klass)
             (inst, mkCancelScope (S (next_object m))) (plugins m) /\
  _plugin_command_cache m1 =
    Dict.set (KeyInstance (next_object m)) (build_table (_get_commands klass))
             (_plugin_command_cache m) /\
  commands m1 = commands m.
Proof.
  unfold load_plugin. simpl. destruct (plugin_load klass); [|discriminate].
  destruct module; simpl; intros [= <- <-]; simpl; auto.
Qed.

Lemma load_plugin_keeps_cache_keyed klass module m inst m1 :
  cache_keyed_by_instances m ->
  load_plugin klass module m = (Ok inst, m1) ->
  cache_keyed_by_instances m1.
Proof.
  intros Hm Hl. destruct (load_plugin_ok _ _ _ _ _ Hl) as (_ & _ & Hc & _).
  intros key Hin. rewrite Hc in Hin.
  destruct (DictProps.keys_set _ _ _ _ Hin) as [->|Hold]; eauto.
Qed.

(** C1 (code defect): after a plugin is loaded and then unloaded by its
    registered name, the standalone table is as before, but the unload ends
    in a KeyError: the command-table cache is keyed by the instance and is
    popped with the name.  The cache entry stays, and every primary name
    and alias of the plugin's commands still resolves through
    [lookup_command]. *)
Theorem unload_by_name_leaves_cache_entry
    (klass : PluginClass) (module : option string)
    (m m1 : CommandsManager) (inst : Plugin) :
  cache_keyed_by_instances m ->
  load_plugin klass module m = (Ok inst, m1) ->
  plugin_unload klass = Ok tt ->
  exists m2,
    unload_plugin (inl (name_of_class klass)) m1
      = (Raise (KeyError (name_of_class klass)), m2)
    /\ commands m2 = commands m
    /\ _plugin_command_cache m2 = _plugin_command_cache m1
    /\ (forall c n, In c (_get_commands klass) ->
          n = cmd_name c \/ In n (cmd_aliases c) ->
          lookup_command m2 n <> None).
Proof.
  intros Hm Hl Hu.
  pose proof (load_plugin_keeps_cache_keyed _ _ _ _ _ Hm Hl) as Hm1.
  destruct (load_plugin_ok _ _ _ _ _ Hl) as (Hi & Hp & Hc & Hs).
  unfold unload_plugin. rewrite Hp, DictProps.pop_set_same. simpl.
  rewrite Hi. simpl. rewrite Hu.
  unfold name_of_plugin. simpl.
  rewrite (DictProps.pop_absent _ _
             (no_text_key m1 (name_of_class klass) Hm1)).
  eexists. split; [reflexivity|]. simpl. split; [exact Hs|].
  split; [reflexivity|].
  intros c n Hin Hn.
  apply (lookup_command_finds _ n (KeyInstance (next_object m))
           (build_table (_get_commands klass))).
  - simpl. rewrite Hc. apply DictProps.get_set_same.
  - eapply build_table_has; eassumption.
Qed.

Lemma unload_by_name_leaves_cache_entry_witness :
  exists m2,
    unload_plugin (inl "Ping") loaded = (Raise (KeyError "Ping"), m2)
    /\ commands m2 = commands new_manager
    /\ _plugin_command_cache m2 = _plugin_command_cache loaded
    /\ (forall c n, In c [ping] ->
          n = cmd_name c \/ In n (cmd_aliases c) ->
          lookup_command m2 n <> None).
Proof.
  apply (unload_by_name_leaves_cache_entry Ping None new_manager loaded
           (mkPlugin 0 Ping)).
  - exact new_manager_cache_keyed.
  - reflexivity.
  - reflexivity.
Defined.

(** C2 (code defect): unloading a name that is not a key of the registry
    raises KeyError (the registry is popped without a default); the
    manager is left as it was. *)
Theorem unload_unknown_name_raises (m : CommandsManager) (name : string) :
  Dict.get name (plugins m) = None ->
  unload_plugin (inl name) m = (Raise (KeyError name), m).
Proof.
  intros Hn. unfold unload_plugin.
  rewrite (DictProps.pop_absent _ _ Hn). reflexivity.
Qed.

Lemma unload_unknown_name_raises_witness :
  unload_plugin (inl "ghost") loaded = (Raise (KeyError "ghost"), loaded).
Proof. apply (unload_unknown_name_raises loaded "ghost"). reflexivity. Defined.

(** C3 (code defect): unloading by plugin class never finds an instance.
    The scan unpacks each registry value in the wrong order and compares
    the type of the cancel scope with the class, so for every manager and
    every plugin class nothing is unloaded, nothing is cancelled and no
    plugin is returned. *)
Theorem unload_by_class_unloads_nothing (m : CommandsManager) (k : PluginClass) :
  unload_plugin (inr (PluginType k)) m = (Ok None, m).
Proof.
  unfold unload_plugin. rewrite find_by_type_plugin_class. reflexivity.
Qed.

(** At the sample manager, where an instance of [Ping] is loaded. *)
Example unload_Ping_by_class :
  Dict.get "Ping" (plugins loaded)
    = Some (mkPlugin 0 Ping, mkCancelScope 1) /\
  type_of_plugin (mkPlugin 0 Ping) = PluginType Ping /\
  unload_plugin (inr (PluginType Ping)) loaded = (Ok None, loaded).
Proof. repeat split. Qed.

End LifecycleProps.


(** ** Text *)

Module TextProps.
Import Py.

Lemma append_nil_r (s : string) : (s ++ EmptyString)%string = s.
Proof. induction s as [|c s IH]; simpl; [reflexivity|now rewrite IH]. Qed.

Lemma append_assoc (a b c : string) :
  ((a ++ b) ++ c)%string = (a ++ (b ++ c))%string.
Proof. induction a as [|x a IH]; simpl; [reflexivity|now rewrite IH]. Qed.

Lemma append_chr (a : string) (c : ascii) (s : string) :
  ((a ++ chr c) ++ s)%string = (a ++ String c s)%string.
Proof. rewrite append_assoc. reflexivity. Qed.

(** A text without the separator is not cut. *)
Lemma split_on_go_word sep word w rest :
  contains_char sep w = false ->
  split_on_go sep word (w ++ rest) = split_on_go sep (word ++ w) rest.
Proof.
  revert word. induction w as [|c w IH]; simpl; intros word Hw.
  - now rewrite append_nil_r.
  - apply orb_false_elim in Hw as [Hc Hw]. rewrite Hc.
    rewrite (IH _ Hw), append_chr. reflexivity.
Qed.

Lemma split_on_pair sep a b :
  contains_char sep a = false ->
  contains_char sep b = false ->
  split_on sep (a ++ String sep b) = [a; b].
Proof.
  intros Ha Hb. unfold split_on.
  rewrite (split_on_go_word _ _ _ _ Ha). simpl.
  rewrite Ascii.eqb_refl.
  rewrite <- (append_nil_r b) at 1.
  rewrite (split_on_go_word _ _ _ _ Hb). reflexivity.
Qed.

Lemma split_on_single sep a :
  contains_char sep a = false -> split_on sep a = [a].
Proof.
  intros Ha. unfold split_on. rewrite <- (append_nil_r a) at 1.
  rewrite (split_on_go_word _ _ _ _ Ha). reflexivity.
Qed.

End TextProps.

(** ** Command resolution *)

Module ResolverProps.
Import Py Manager Samples.Mgr.

(** The filter predicate of [get_command] says: the token is the primary
    name or one of the aliases. *)
Lemma matches_spec token cmd :
  matches token cmd = true <->
  cmd_name cmd = token \/ In token (cmd_aliases cmd).
Proof.
  unfold matches. rewrite orb_true_iff, String.eqb_eq, existsb_exists.
  split; intros [H|H]; auto.
  - destruct H as (x & Hin & Hx). apply String.eqb_eq in Hx. subst x. auto.
  - right. exists token. split; [exact H|apply String.eqb_refl].
Qed.

Lemma find_matches_Some token subs :
  (exists d, List.find (matches token) subs = Some d) <->
  (exists s, In s subs /\ (cmd_name s = token \/ In token (cmd_aliases s))).
Proof.
  split.
  - intros [d Hd]. apply find_some in Hd as [Hin Hm].
    exists d. split; [exact Hin|apply matches_spec, Hm].
  - intros (s & Hin & Hs). apply matches_spec in Hs.
    destruct (List.find (matches token) subs) as [d|] eqn:E; [eauto|].
    pose proof (find_none _ _ E s Hin) as Hn. congruence.
Qed.

(** The two tiers of [lookup_command]: a standalone command shadows the
    plugin tables, which are searched only when the standalone table has
    no entry. *)
Lemma lookup_command_standalone m n c :
  Dict.get n (commands m) = Some c -> lookup_command m n = Some c.
Proof. intros H. unfold lookup_command. now rewrite H. Qed.

Lemma lookup_command_plugins m n :
  Dict.get n (commands m) = None ->
  lookup_command m n = lookup_in_tables n (_plugin_command_cache m).
Proof. intros H. unfold lookup_command. now rewrite H. Qed.

(** The plugin tier: the tables are searched in the order of the cache
    and the first one that has the name decides. *)
Lemma lookup_in_tables_first n tables p :
  lookup_in_tables n tables = Some p <->
  exists before key table after,
    tables = before ++ (key, table) :: after /\
    Forall (fun kt => Dict.get n (snd kt) = None) before /\
    Dict.get n table = Some p.
Proof.
  induction tables as [|[k0 t0] tables IH]; simpl.
  - split; [discriminate|].
    intros (before & key & table & after & E & _). now destruct before.
  - destruct (Dict.get n t0) as [c|] eqn:E0.
    + split.
      * intros [= <-]. exists [], k0, t0, tables. repeat split; auto.
      * intros (before & key & table & after & E & Hb & Ht).
        destruct before as [|[k1 t1] before]; simpl in E.
        -- injection E as -> -> ->. congruence.
        -- injection E as -> -> ->. apply Forall_cons_1 in Hb as [Hb _].
           simpl in Hb. congruence.
    + rewrite IH. split.
      * intros (before & key & table & after & -> & Hb & Ht).
        exists ((k0, t0) :: before), key, table, after.
        repeat split; auto.
      * intros (before & key & table & after & E & Hb & Ht).
        destruct before as [|[k1 t1] before]; simpl in E.
        -- injection E as -> -> ->. congruence.
        -- injection E as -> -> ->. apply Forall_cons_1 in Hb as [_ Hb].
           exists before, key, table, after. auto.
Qed.

(** [lookup_command] is the two-tier lookup. *)
Lemma lookup_command_two_tier m n p :
  lookup_command m n = Some p <-> two_tier_lookup m n p.
Proof.
  unfold lookup_command, two_tier_lookup.
  destruct (Dict.get n (commands m)) as [c|].
  - split; [intros [= <-]; now left|].
    intros [[= <-]|[H _]]; [reflexivity|discriminate H].
  - rewrite lookup_in_tables_first. split.
    + intros H. right. split; [reflexivity|exact H].
    + intros [H|[_ H]]; [discriminate H|exact H].
Qed.

(** C8: the dotted name made of [parent], one space and [child] resolves
    exactly when [parent] resolves through the two-tier lookup (the
    standalone table first; the plugin tables, in their order, only when
    the standalone table has no entry) and [child] is the primary name or
    an alias of an entry of the subcommand list of the resolved parent; the
    result is the first such entry of that parent.  When no entry matches,
    the dotted name is absent although [parent] alone resolves. *)
Theorem get_command_parent_child
    (m : CommandsManager) (parent child : string) :
  contains_char space parent = false ->
  contains_char space child = false ->
  get_command m (parent ++ " " ++ child) =
    match lookup_command m parent with
    | Some p => List.find (matches child) (cmd_subcommands p)
    | None => None
    end
  /\ (forall p, lookup_command m parent = Some p <->
                two_tier_lookup m parent p)
  /\ ((exists d, get_command m (parent ++ " " ++ child) = Some d) <->
      (exists p, two_tier_lookup m parent p /\
         exists s, In s (cmd_subcommands p) /\
                   (cmd_name s = child \/ In child (cmd_aliases s))))
  /\ (forall d, get_command m (parent ++ " " ++ child) = Some d <->
        exists p, two_tier_lookup m parent p /\
                  List.find (matches child) (cmd_subcommands p) = Some d)
  /\ (forall p, two_tier_lookup m parent p ->
        (forall s, In s (cmd_subcommands p) ->
                   cmd_name s <> child /\ ~ In child (cmd_aliases s)) ->
        get_command m (parent ++ " " ++ child) = None /\
        get_command m parent = Some p).
Proof.
  intros Hp Hc.
  assert (E : get_command m (parent ++ " " ++ child) =
              match lookup_command m parent with
              | Some p => List.find (matches child) (cmd_subcommands p)
              | None => None
              end).
  { unfold get_command.
    change (parent ++ " " ++ child)%string
      with (parent ++ String space child)%string.
    rewrite (TextProps.split_on_pair _ _ _ Hp Hc).
    destruct (lookup_command m parent) as [p|]; [|reflexivity].
    simpl. destruct (List.find (matches child) (cmd_subcommands p));
      reflexivity. }
  split; [exact E|].
  split; [intros p; apply lookup_command_two_tier|]. split; [|split].
  - rewrite E. destruct (lookup_command m parent) as [p|] eqn:Hl.
    + rewrite find_matches_Some. split.
      * intros Hs. exists p. split; [now apply lookup_command_two_tier|exact Hs].
      * intros (p' & Hp' & Hs). apply lookup_command_two_tier in Hp'.
        rewrite Hl in Hp'. injection Hp' as <-. exact Hs.
    + split; [intros [d Hd]; discriminate|].
      intros (p' & Hp' & _). apply lookup_command_two_tier in Hp'.
      rewrite Hl in Hp'. discriminate Hp'.
  - intros d. rewrite E. destruct (lookup_command m parent) as [p|] eqn:Hl.
    + split.
      * intros Hd. exists p. split; [now apply lookup_command_two_tier|exact Hd].
      * intros (p' & Hp' & Hd). apply lookup_command_two_tier in Hp'.
        rewrite Hl in Hp'. injection Hp' as <-. exact Hd.
    + split; [discriminate|].
      intros (p' & Hp' & _). apply lookup_command_two_tier in Hp'.
      rewrite Hl in Hp'. discriminate Hp'.
  - intros p Htier Hnone. apply lookup_command_two_tier in Htier as Hl.
    split.
    + rewrite E, Hl.
      destruct (List.find (matches child) (cmd_subcommands p)) as [d|] eqn:F;
        [|reflexivity].
      apply find_some in F as [Hin Hm]. apply matches_spec in Hm.
      destruct (Hnone d Hin) as [H1 H2]. tauto.
    + unfold get_command. rewrite (TextProps.split_on_single _ _ Hp), Hl.
      reflexivity.
Qed.

(** The standalone [role] resolves with its subcommand and not with a
    ghost; the [role] of a plugin resolves through the second tier, with
    its own subcommand, where there is no standalone [role], and is
    shadowed where there is one. *)
Lemma get_command_parent_child_witness :
  (exists d, get_command with_role ("role" ++ " " ++ "a") = Some d) /\
  get_command with_role ("role" ++ " " ++ "ghost") = None /\
  get_command roles_loaded ("role" ++ " " ++ "grant") = Some role_grant /\
  get_command roles_shadowed ("role" ++ " " ++ "grant") = None /\
  get_command roles_shadowed ("role" ++ " " ++ "add") = Some role_add.
Proof.
  destruct (get_command_parent_child with_role "role" "a" eq_refl eq_refl)
    as (_ & _ & Hiff & _ & _).
  destruct (get_command_parent_child with_role "role" "ghost" eq_refl eq_refl)
    as (_ & _ & _ & _ & Hghost).
  destruct (get_command_parent_child roles_loaded "role" "grant"
              eq_refl eq_refl) as (_ & _ & _ & Hplugin & _).
  destruct (get_command_parent_child roles_shadowed "role" "grant"
              eq_refl eq_refl) as (_ & _ & _ & _ & Hshadow).
  destruct (get_command_parent_child roles_shadowed "role" "add"
              eq_refl eq_refl) as (_ & _ & _ & Hfirst & _).
  split; [|split; [|split; [|split]]].
  - apply Hiff. exists role. split; [left; reflexivity|].
    exists role_add. split; [left; reflexivity|].
    right. left. reflexivity.
  - apply (Hghost role); [left; reflexivity|].
    intros s [<-|[]]. split; [discriminate|].
    intros [H|[]]. discriminate H.
  - apply Hplugin. exists plugin_role. split; [|reflexivity].
    right. split; [reflexivity|].
    exists [(KeyInstance 0, build_table [ping])], (KeyInstance 2),
      (build_table [plugin_role]), [].
    split; [reflexivity|]. split; [|reflexivity].
    constructor; [reflexivity|constructor].
  - apply (Hshadow role); [left; reflexivity|].
    intros s [<-|[]]. split; [discriminate|].
    intros [H|[]]. discriminate H.
  - apply Hfirst. exists role. split; [left; reflexivity|reflexivity].
Defined.

End ResolverProps.

(** ** The tokenizer *)

Module TokenizerProps.
Import Py Utils TextProps Samples.Text.

(** *** Replacing one character by another *)

Lemma prefix_chr a c r :
  String.prefix (chr a) (String c r) = Ascii.eqb c a.
Proof.
  unfold chr. simpl. destruct (ascii_dec a c) as [->|N].
  - rewrite Ascii.eqb_refl. now destruct r.
  - symmetry. apply Ascii.eqb_neq. congruence.
Qed.

Lemma replace_go_chr a b s :
  replace_go (chr a) (chr b) 0 s = map_chars (swap a b) s.
Proof.
  induction s as [|c s IH]; [reflexivity|].
  unfold replace_go; fold replace_go. rewrite prefix_chr. unfold swap at 1.
  simpl. destruct (Ascii.eqb c a); simpl; now rewrite IH.
Qed.

Lemma replace_chr a b s : Py.replace (chr a) (chr b) s = map_chars (swap a b) s.
Proof. apply replace_go_chr. Qed.

Lemma map_chars_append f a b :
  map_chars f (a ++ b) = (map_chars f a ++ map_chars f b)%string.
Proof. induction a as [|x a IH]; simpl; [reflexivity|now rewrite IH]. Qed.

Lemma map_chars_undo a b s :
  contains_char b s = false ->
  map_chars (swap b a) (map_chars (swap a b) s) = s.
Proof.
  induction s as [|c s IH]; simpl; [reflexivity|].
  intros H. apply orb_false_elim in H as [Hc Hs]. rewrite (IH Hs).
  f_equal. unfold swap. destruct (Ascii.eqb c a) eqn:E.
  - rewrite Ascii.eqb_refl. symmetry. now apply Ascii.eqb_eq.
  - now rewrite Hc.
Qed.


(** *** Whitespace splitting *)

Lemma flush_nonempty w : w <> EmptyString -> flush w = [w].
Proof. destruct w; [congruence|reflexivity]. Qed.

(** A run without whitespace extends the word being read. *)
Lemma split_go_word word w t :
  all_chars not_space w = true ->
  split_go word (w ++ t) = split_go (word ++ w) t.
Proof.
  revert word. induction w as [|c w IH]; simpl; intros word Hw.
  - now rewrite append_nil_r.
  - apply andb_prop in Hw as [Hc Hw]. unfold not_space in Hc.
    apply negb_true_iff in Hc. rewrite Hc, (IH _ Hw), append_chr.
    reflexivity.
Qed.

(** At a word start the word being read is complete. *)
Lemma split_go_starts word t :
  word_starts t = true ->
  split_go word t = flush word ++ split_go EmptyString t.
Proof.
  destruct t as [|c r]; simpl.
  - now rewrite app_nil_r.
  - intros ->. reflexivity.
Qed.

(** Behind text that ends with whitespace, reading starts afresh. *)
Lemma split_go_ends word pre t :
  ends_with_space pre = true ->
  split_go word (pre ++ t) = split_go word pre ++ split_go EmptyString t.
Proof.
  revert word. induction pre as [|c pre IH]; intros word He.
  - discriminate He.
  - destruct pre as [|c' pre'].
    + simpl in He. simpl. rewrite He. simpl. now rewrite app_nil_r.
    + assert (He' : ends_with_space (String c' pre') = true) by exact He.
      change (split_go word (String c (String c' pre' ++ t)) =
              split_go word (String c (String c' pre')) ++
              split_go EmptyString t).
      unfold split_go; fold split_go.
      destruct (isspace c).
      * rewrite (IH _ He'). now rewrite app_assoc.
      * apply IH, He'.
Qed.

Lemma split_around pre w t :
  word_ends pre = true ->
  w <> EmptyString ->
  all_chars not_space w = true ->
  word_starts t = true ->
  Py.split (pre ++ w ++ t) = Py.split pre ++ [w] ++ Py.split t.
Proof.
  intros Hpre Hne Hw Ht. unfold Py.split.
  assert (E : split_go EmptyString (w ++ t) = [w] ++ split_go EmptyString t).
  { rewrite (split_go_word _ _ _ Hw). simpl.
    rewrite (split_go_starts _ _ Ht), (flush_nonempty _ Hne). reflexivity. }
  destruct pre as [|c pre].
  - simpl. exact E.
  - rewrite (split_go_ends _ _ _ Hpre), E. reflexivity.
Qed.

(** No part is empty. *)
Lemma split_go_nonempty word s x :
  In x (split_go word s) -> x <> EmptyString.
Proof.
  revert word. induction s as [|c s IH]; simpl; intros word Hin.
  - destruct word; simpl in Hin; [contradiction|].
    destruct Hin as [<-|[]]. discriminate.
  - destruct (isspace c).
    + apply in_app_or in Hin as [Hin|Hin]; [|eapply IH, Hin].
      destruct word; simpl in Hin; [contradiction|].
      destruct Hin as [<-|[]]. discriminate.
    + eapply IH, Hin.
Qed.

(** *** The substitution inside quoted runs *)

Lemma match_quoted_not_quote c r :
  Ascii.eqb c dquote = false -> match_quoted (String c r) = None.
Proof. intros H. destruct r; simpl; [reflexivity|now rewrite H]. Qed.

Lemma re_sub_go_here replacer c r :
  re_sub_go replacer 0 (String c r) =
    match match_quoted (String c r) with
    | Some m =>
        (replacer m ++ re_sub_go replacer (String.length m - 1) r)%string
    | None => String c (re_sub_go replacer 0 r)
    end.
Proof. reflexivity. Qed.

(** Text without a double quote is copied. *)
Lemma re_sub_go_copies replacer pre t :
  contains_char dquote pre = false ->
  re_sub_go replacer 0 (pre ++ t) = (pre ++ re_sub_go replacer 0 t)%string.
Proof.
  induction pre as [|c pre IH]; intros Hq; [reflexivity|].
  simpl in Hq. apply orb_false_elim in Hq as [Hc Hq].
  change (re_sub_go replacer 0 (String c (pre ++ t)) =
          String c (pre ++ re_sub_go replacer 0 t)).
  rewrite re_sub_go_here, (match_quoted_not_quote _ _ Hc), (IH Hq).
  reflexivity.
Qed.

(** The lazy run stops at the first double quote. *)
Lemma lazy_close_run w post :
  contains_char dquote w = false ->
  contains_char newline w = false ->
  lazy_close (w ++ String dquote post) = Some (w ++ chr dquote)%string.
Proof.
  induction w as [|c w IH]; simpl; intros Hq Hn.
  - reflexivity.
  - apply orb_false_elim in Hq as [Hcq Hq].
    apply orb_false_elim in Hn as [Hcn Hn].
    rewrite Hcq, Hcn, (IH Hq Hn). reflexivity.
Qed.

Lemma match_quoted_run body post :
  body <> EmptyString ->
  contains_char dquote body = false ->
  contains_char newline body = false ->
  match_quoted (String dquote (body ++ String dquote post))
    = Some (String dquote (body ++ chr dquote)).
Proof.
  destruct body as [|c body]; [congruence|]. simpl. intros _ Hq Hn.
  apply orb_false_elim in Hq as [_ Hq].
  apply orb_false_elim in Hn as [Hcn Hn].
  rewrite Hcn, (lazy_close_run _ _ Hq Hn). reflexivity.
Qed.

(** Skipping exactly the characters of the match. *)
Lemma re_sub_go_skips replacer w t :
  re_sub_go replacer (String.length w) (w ++ t) = re_sub_go replacer 0 t.
Proof.
  induction w as [|c w IH]; [reflexivity|].
  change (re_sub_go replacer (String.length w) (w ++ t) =
          re_sub_go replacer 0 t).
  exact IH.
Qed.

Lemma re_sub_go_quoted replacer body post :
  body <> EmptyString ->
  contains_char dquote body = false ->
  contains_char newline body = false ->
  re_sub_go replacer 0 (String dquote (body ++ String dquote post))
    = (replacer (String dquote (body ++ chr dquote))
       ++ re_sub_go replacer 0 post)%string.
Proof.
  intros Hne Hq Hn.
  rewrite re_sub_go_here, (match_quoted_run _ _ Hne Hq Hn). f_equal.
  replace (String.length (String dquote (body ++ chr dquote)) - 1)
    with (String.length (body ++ chr dquote)) by (simpl; lia).
  replace (body ++ String dquote post)%string
    with ((body ++ chr dquote) ++ post)%string
    by (rewrite append_assoc; reflexivity).
  apply re_sub_go_skips.
Qed.

Lemma re_sub_go_starts replacer post :
  word_starts post = true ->
  word_starts (re_sub_go replacer 0 post) = true.
Proof.
  destruct post as [|c r]; [reflexivity|]. intros Hc.
  change (isspace c = true) in Hc.
  assert (Hq : Ascii.eqb c dquote = false).
  { destruct (Ascii.eqb c dquote) eqn:E; [|reflexivity].
    apply Ascii.eqb_eq in E. subst c. discriminate Hc. }
  rewrite re_sub_go_here, (match_quoted_not_quote _ _ Hq). exact Hc.
Qed.

(** *** Characters of the quoted run *)

Lemma blank_to_NUL_not_space body :
  all_chars space_is_only_blank body = true ->
  all_chars not_space (map_chars (swap space NUL) body) = true.
Proof.
  induction body as [|c body IH]; simpl; [reflexivity|].
  intros H. apply andb_prop in H as [Hc Hb]. rewrite (IH Hb), andb_true_r.
  unfold swap, space_is_only_blank in *.
  destruct (Ascii.eqb c space); [reflexivity|].
  rewrite orb_false_r in Hc. exact Hc.
Qed.

Lemma only_blank_no_newline body :
  all_chars space_is_only_blank body = true ->
  contains_char newline body = false.
Proof.
  induction body as [|c body IH]; simpl; [reflexivity|].
  intros H. apply andb_prop in H as [Hc Hb]. rewrite (IH Hb), orb_false_r.
  destruct (Ascii.eqb c newline) eqn:E; [|reflexivity].
  apply Ascii.eqb_eq in E. subst c. discriminate Hc.
Qed.

Lemma all_chars_append f a b :
  all_chars f (a ++ b) = all_chars f a && all_chars f b.
Proof.
  induction a as [|x a IH]; simpl; [reflexivity|].
  now rewrite IH, andb_assoc.
Qed.

Lemma no_NUL_restore s :
  contains_char NUL s = false -> map_chars (swap NUL space) s = s.
Proof.
  induction s as [|c s IH]; simpl; [reflexivity|].
  intros H. apply orb_false_elim in H as [Hc Hs].
  unfold swap at 1. now rewrite Hc, (IH Hs).
Qed.

(** The parts are made of the characters that were read. *)
Lemma split_go_chars c word s :
  contains_char c word = false ->
  contains_char c s = false ->
  Forall (fun x => contains_char c x = false) (split_go word s).
Proof.
  revert word. induction s as [|x s IH]; simpl; intros word Hw Hs.
  - destruct word; simpl; constructor; [exact Hw|constructor].
  - apply orb_false_elim in Hs as [Hx Hs]. destruct (isspace x).
    + apply Forall_app. split; [|apply IH; [reflexivity|exact Hs]].
      destruct word; simpl; constructor; [exact Hw|constructor].
    + apply IH; [|exact Hs].
      clear IH. induction word as [|y word IHw]; simpl.
      * now rewrite Hx.
      * simpl in Hw. apply orb_false_elim in Hw as [Hy Hw].
        now rewrite Hy, (IHw Hw).
Qed.

Lemma re_sub_go_ext r1 r2 skip s :
  (forall m, r1 m = r2 m) -> re_sub_go r1 skip s = re_sub_go r2 skip s.
Proof.
  intros Hr. revert skip. induction s as [|c s IH]; intros skip;
    [reflexivity|].
  destruct skip as [|k].
  - rewrite !re_sub_go_here. destruct (match_quoted (String c s)).
    + now rewrite Hr, IH.
    + now rewrite IH.
  - simpl. apply IH.
Qed.

(** The tokenizer with the default delimiter: spaces inside matches become
    NUL, the text is split at whitespace, NUL becomes a space again. *)
Lemma tokenize_unfold s :
  tokenize s =
    map (map_chars (swap NUL space))
        (Py.split (re_sub_go (map_chars (swap space NUL)) 0 s)).
Proof.
  unfold tokenize, split_message_content, re_sub_quoted. cbv zeta.
  change " " with (chr space).
  rewrite (re_sub_go_ext (fun m => Py.replace (chr space) (chr NUL) m)
             (map_chars (swap space NUL)) 0 s (replace_chr space NUL)).
  apply map_ext. intros x. apply replace_chr.
Qed.

(** The tokenizer on text without a double quote. *)
Lemma tokenize_unquoted u :
  contains_char dquote u = false ->
  tokenize u = map (map_chars (swap NUL space)) (Py.split u).
Proof.
  intros Hq. rewrite tokenize_unfold.
  pose proof (re_sub_go_copies (map_chars (swap space NUL)) u EmptyString Hq)
    as E.
  rewrite append_nil_r in E. simpl re_sub_go in E. rewrite append_nil_r in E.
  now rewrite E.
Qed.

Lemma tokenize_plain u :
  contains_char dquote u = false ->
  contains_char NUL u = false ->
  tokenize u = Py.split u.
Proof.
  intros Hq Hn. rewrite (tokenize_unquoted _ Hq).
  pose proof (split_go_chars NUL EmptyString u eq_refl Hn) as Hall.
  fold (Py.split u) in Hall. induction Hall as [|x l Hx _ IH]; simpl.
  - reflexivity.
  - now rewrite (no_NUL_restore _ Hx), IH.
Qed.

(** *** The quoted run *)

(** Several quoted runs are handled one after the other. *)
Example tokenize_docstring_content :
  tokenize docstring_content
    = ["!send"; q ++ "Fuyukai desu" ++ q; q ++ "Hello, world!" ++ q]%string.
Proof. reflexivity. Qed.

(** C9, as stated, fails: the tokenizer cuts at whitespace only, so a
    quoted run that is glued to other text stays inside that word.  The
    inner space is kept, but the token is the whole word and the quoted run
    by itself is not a token. *)
Lemma glued_quotes_stay_in_their_word :
  tokenize glued = ["!set"; "name=" ++ q ++ "John Smith" ++ q]%string /\
  ~ In (q ++ "John Smith" ++ q)%string (tokenize glued).
Proof.
  split; [reflexivity|].
  change (tokenize glued)
    with ["!set"; "name=" ++ q ++ "John Smith" ++ q]%string.
  intros [H|[H|[]]]; discriminate H.
Qed.

(** Whitespace other than the delimiter is not hidden inside quotes, while
    the text is cut at every whitespace character: a quoted run with a tab
    inside is cut in two, against the docstring of the function. *)
Example quoted_tab_is_cut :
  tokenize quoted_tab = ["say"; q ++ "a"; "b" ++ q]%string /\
  ~ In (q ++ "a" ++ tab ++ "b" ++ q)%string (tokenize quoted_tab).
Proof.
  split; [reflexivity|].
  change (tokenize quoted_tab) with ["say"; q ++ "a"; "b" ++ q]%string.
  intros [H|[H|[H|[]]]]; discriminate H.
Qed.

(** C9 (amended): let the text be [pre], a double quote, [body], a double
    quote, [post], where the quoted run stands on its own ([pre] is empty
    or ends with whitespace, [post] is empty or starts with whitespace),
    [pre] has no double quote, and [body] is not empty and has no double
    quote, no NUL and, as whitespace, spaces only.  Then the quoted run,
    quotes and inner spaces included, is one token, between the tokens of
    [pre] and those of [post].  Text without double quotes is cut exactly
    at its whitespace (a NUL in it comes out as a space), the empty text
    has no tokens, and no token is ever empty.  Nothing is said about a
    body that holds other whitespace. *)
Theorem tokenize_quoted_run (pre body post : string) :
  contains_char dquote pre = false ->
  word_ends pre = true ->
  body <> EmptyString ->
  contains_char dquote body = false ->
  contains_char NUL body = false ->
  all_chars space_is_only_blank body = true ->
  word_starts post = true ->
  tokenize (pre ++ String dquote (body ++ String dquote post))
    = tokenize pre ++ [String dquote (body ++ chr dquote)] ++ tokenize post
  /\ (forall u, contains_char dquote u = false ->
        tokenize u = map (map_chars (swap NUL space)) (Py.split u))
  /\ (forall u, contains_char dquote u = false ->
        contains_char NUL u = false -> tokenize u = Py.split u)
  /\ tokenize EmptyString = []
  /\ (forall s, ~ In EmptyString (tokenize s)).
Proof.
  intros Hpq Hpe Hne Hbq Hbn Hbb Hps.
  split; [|split; [exact tokenize_unquoted|split; [exact tokenize_plain|split]]].
  - rewrite (tokenize_unquoted pre Hpq), (tokenize_unfold post),
      tokenize_unfold.
    rewrite (re_sub_go_copies _ _ _ Hpq).
    rewrite (re_sub_go_quoted _ _ _ Hne Hbq (only_blank_no_newline _ Hbb)).
    set (T := re_sub_go (map_chars (swap space NUL)) 0 post).
    set (W := map_chars (swap space NUL) (String dquote (body ++ chr dquote))).
    assert (HW : all_chars not_space W = true).
    { unfold W. simpl. rewrite map_chars_append, all_chars_append.
      rewrite (blank_to_NUL_not_space _ Hbb). reflexivity. }
    assert (HWne : W <> EmptyString) by (unfold W; simpl; discriminate).
    rewrite (split_around pre W T Hpe HWne HW (re_sub_go_starts _ _ Hps)).
    rewrite !map_app. f_equal. f_equal. simpl. f_equal.
    unfold W. simpl. rewrite !map_chars_append.
    rewrite (map_chars_undo space NUL body Hbn). reflexivity.
  - reflexivity.
  - intros s Hin. rewrite tokenize_unfold in Hin.
    apply in_map_iff in Hin as (x & Hx & Hin).
    apply split_go_nonempty in Hin. destruct x; [congruence|discriminate Hx].
Qed.

Lemma tokenize_quoted_run_witness :
  tokenize send_quoted
    = tokenize "say " ++ [String dquote ("hello world" ++ chr dquote)]
      ++ tokenize " now".
Proof.
  apply (tokenize_quoted_run "say " "hello world" " now");
    try reflexivity. discriminate.
Defined.

End TokenizerProps.

(** ** The prefix matcher *)

Module MatcherProps.
Import Py Utils TextProps.

Lemma startswith_append p t : startswith (p ++ t) p = true.
Proof.
  unfold startswith. induction p as [|c p IH]; simpl.
  - now destruct t.
  - destruct (ascii_dec c c); [exact IH|congruence].
Qed.

Lemma drop_chars_append p t : drop_chars (String.length p) (p ++ t) = t.
Proof. induction p as [|c p IH]; simpl; [reflexivity|exact IH]. Qed.

Lemma blank_has_no_quote s :
  all_chars isspace s = true -> contains_char dquote s = false.
Proof.
  induction s as [|c s IH]; simpl; [reflexivity|].
  intros H. apply andb_prop in H as [Hc Hs]. rewrite (IH Hs), orb_false_r.
  destruct (Ascii.eqb c dquote) eqn:E; [|reflexivity].
  apply Ascii.eqb_eq in E. subst c. discriminate Hc.
Qed.

Lemma split_blank s : all_chars isspace s = true -> Py.split s = [].
Proof.
  unfold Py.split. induction s as [|c s IH]; simpl; [reflexivity|].
  intros H. apply andb_prop in H as [Hc Hs]. now rewrite Hc, (IH Hs).
Qed.

(** Whitespace alone has no tokens. *)
Lemma tokenize_blank s : all_chars isspace s = true -> tokenize s = [].
Proof.
  intros Hs.
  rewrite (TokenizerProps.tokenize_unquoted s (blank_has_no_quote s Hs)).
  now rewrite (split_blank s Hs).
Qed.

(** C4 (code defect): when the content is a non-empty configured prefix
    followed by nothing or by whitespace only, the matcher does not report
    a match with an empty command word: it takes the first of no tokens
    and fails with IndexError. *)
Theorem prefix_alone_raises_IndexError
    (p tail : string) (message : Message) :
  p <> EmptyString ->
  all_chars isspace tail = true ->
  content message = (p ++ tail)%string ->
  prefix_check_factory (Static (PrefixStr p)) message = Raise IndexError.
Proof.
  intros Hp Ht Hc. unfold prefix_check_factory. rewrite Hc.
  rewrite startswith_append, drop_chars_append, (tokenize_blank _ Ht).
  destruct p; [congruence|reflexivity].
Qed.

Lemma prefix_alone_raises_IndexError_witness :
  prefix_check_factory (Static (PrefixStr "!")) (mkMessage "!")
    = Raise IndexError /\
  prefix_check_factory (Static (PrefixStr "!")) (mkMessage "!  ")
    = Raise IndexError.
Proof.
  split.
  - apply (prefix_alone_raises_IndexError "!" EmptyString (mkMessage "!"));
      [discriminate|reflexivity|reflexivity].
  - apply (prefix_alone_raises_IndexError "!" "  " (mkMessage "!  "));
      [discriminate|reflexivity|reflexivity].
Defined.

End MatcherProps.

(** ** The decorators *)

Module DecoratorProps.
Import Py Decorators Samples.Deco.

Lemma lookup_set_attrs_same r a st fn :
  st !! r = Some fn ->
  set_attrs r a st !! r = Some (mkFunction (__name__ fn) (__doc__ fn) (Some a)).
Proof. intros H. unfold set_attrs. rewrite H. apply lookup_insert_eq. Qed.

Lemma lookup_set_attrs_other r r' a st :
  r <> r' -> set_attrs r a st !! r' = st !! r'.
Proof.
  intros N. unfold set_attrs. destruct (st !! r); [|reflexivity].
  now apply lookup_insert_ne.
Qed.

Lemma attrs_of_set_same r a st fn :
  st !! r = Some fn -> attrs_of r (set_attrs r a st) = Some a.
Proof.
  intros H. unfold attrs_of. now rewrite (lookup_set_attrs_same _ _ _ _ H).
Qed.

Lemma attrs_of_set_other r r' a st :
  r <> r' -> attrs_of r' (set_attrs r a st) = attrs_of r' st.
Proof.
  intros N. unfold attrs_of. now rewrite (lookup_set_attrs_other _ _ _ _ N).
Qed.

Lemma get_attrs_Ok attr r st a :
  attrs_of r st = Some a -> get_attrs attr r st = Ok a.
Proof. intros H. unfold get_attrs. now rewrite H. Qed.

(** One application of a parent's decorator to another function object:
    the object itself is annotated afresh, flagged, appended to the list
    of the parent and returned. *)
Lemma _subcommand_spec cleandoc parent kw func st fn p :
  parent <> func ->
  st !! func = Some fn ->
  attrs_of parent st = Some p ->
  exists st',
    _subcommand cleandoc parent kw func st = Ok (func, st') /\
    st' !! func =
      Some (mkFunction (__name__ fn) (__doc__ fn)
              (Some (set_cmd_subcommand (fresh_attrs cleandoc kw fn func) true)))
    /\ attrs_of parent st' = Some (append_subcommand p func)
    /\ (forall r, r <> func -> r <> parent -> st' !! r = st !! r).
Proof.
  intros Hne Hf Hp. unfold _subcommand, command. rewrite Hf. simpl.
  set (a0 := fresh_attrs cleandoc kw fn func).
  set (st1 := set_attrs func a0 st).
  assert (H1 : st1 !! func =
               Some (mkFunction (__name__ fn) (__doc__ fn) (Some a0)))
    by (apply lookup_set_attrs_same, Hf).
  rewrite (get_attrs_Ok _ _ _ a0) by (eapply attrs_of_set_same, Hf). simpl.
  set (st2 := set_attrs func (set_cmd_subcommand a0 true) st1).
  assert (H2 : st2 !! func =
               Some (mkFunction (__name__ fn) (__doc__ fn)
                       (Some (set_cmd_subcommand a0 true))))
    by (unfold st2; rewrite (lookup_set_attrs_same _ _ _ _ H1); reflexivity).
  assert (Hp2 : attrs_of parent st2 = Some p).
  { unfold st2, st1. rewrite !attrs_of_set_other by congruence. exact Hp. }
  rewrite (get_attrs_Ok _ _ _ _ Hp2). simpl.
  eexists. split; [reflexivity|]. split; [|split].
  - rewrite lookup_set_attrs_other by exact Hne. exact H2.
  - unfold attrs_of in Hp2. destruct (st2 !! parent) as [pf|] eqn:E;
      [|discriminate]. eapply attrs_of_set_same, E.
  - intros r Hr1 Hr2. unfold st2, st1.
    rewrite !lookup_set_attrs_other by congruence. reflexivity.
Qed.

Lemma attrs_of_lookup r st fn :
  st !! r = Some fn -> attrs_of r st = attrs fn.
Proof. intros H. unfold attrs_of. now rewrite H. Qed.

Lemma last_subcommand_snoc r st a cmd :
  attrs_of r st = Some (append_subcommand a cmd) ->
  read_subcommands r st = Ok (cmd_subcommands a ++ [cmd]) /\
  last_subcommand r st = Ok cmd.
Proof.
  intros H. unfold last_subcommand, read_subcommands.
  rewrite (get_attrs_Ok _ _ _ _ H). simpl. split; [reflexivity|].
  now rewrite last_snoc.
Qed.

(** C5, as stated, fails: after [A.subcommand()(f)] and then
    [B.subcommand()(f)] the last entry of the list of [A] and the last
    entry of the list of [B] are one and the same object, [f]; renaming
    the descriptor reached through [A] renames the one reached through
    [B]. *)
Lemma two_parents_share_the_descriptor :
  read_through_B = Ok "f" /\
  rename_through_A_read_through_B = Ok (f, f, "renamed").
Proof. split; reflexivity. Qed.

(** C5 (amended): for parents [A] and [B] annotated by [command] and a
    function object [f] other than both, [A.subcommand(...)(f)] followed by
    [B.subcommand(...)(f)] annotates the one object [f] twice and returns
    it both times.  [f] is appended to the list of [A] and to the list of
    [B]; the attributes of [f] are those of the second annotation, the
    first ones being overwritten; and a change made to the descriptor
    reached through [A] is seen in the descriptor reached through [B]. *)
Theorem subcommand_of_two_parents_is_one_object
    (cleandoc : string -> string) (kwA kwB : Kwargs)
    (A B f : ref) (st : Store) (a b : Attrs) (fn : Function) :
  A <> B -> f <> A -> f <> B ->
  attrs_of A st = Some a -> subcommand a = A ->
  attrs_of B st = Some b -> subcommand b = B ->
  st !! f = Some fn ->
  exists st1 st2,
    apply_subcommand cleandoc A kwA f st = Ok (f, st1) /\
    apply_subcommand cleandoc B kwB f st1 = Ok (f, st2) /\
    read_subcommands A st2 = Ok (cmd_subcommands a ++ [f]) /\
    read_subcommands B st2 = Ok (cmd_subcommands b ++ [f]) /\
    attrs_of f st2
      = Some (set_cmd_subcommand (fresh_attrs cleandoc kwB fn f) true) /\
    (forall dA dB new_name,
       last_subcommand A st2 = Ok dA ->
       last_subcommand B st2 = Ok dB ->
       dA = dB /\
       exists st3, set_cmd_name dA new_name st2 = Ok st3 /\
                   read_cmd_name dB st3 = Ok new_name).
Proof.
  intros HAB HfA HfB Ha HaA Hb HbB Hf.
  destruct (_subcommand_spec cleandoc A kwA f st fn a
              (not_eq_sym HfA) Hf Ha) as (st1 & E1 & Hf1 & HA1 & Hrest1).
  assert (Hb1 : attrs_of B st1 = Some b).
  { unfold attrs_of. rewrite (Hrest1 B (not_eq_sym HfB) (not_eq_sym HAB)).
    exact Hb. }
  destruct (_subcommand_spec cleandoc B kwB f st1 _ b
              (not_eq_sym HfB) Hf1 Hb1) as (st2 & E2 & Hf2 & HB2 & Hrest2).
  assert (HA2 : attrs_of A st2 = Some (append_subcommand a f)).
  { unfold attrs_of. rewrite (Hrest2 A (not_eq_sym HfA) HAB). exact HA1. }
  assert (Hattr : attrs_of f st2
            = Some (set_cmd_subcommand (fresh_attrs cleandoc kwB fn f) true)).
  { rewrite (attrs_of_lookup _ _ _ Hf2). reflexivity. }
  destruct (last_subcommand_snoc A st2 a f HA2) as [HrA HlA].
  destruct (last_subcommand_snoc B st2 b f HB2) as [HrB HlB].
  exists st1, st2. split; [|split; [|split; [|split; [|split]]]].
  - unfold apply_subcommand. rewrite (get_attrs_Ok _ _ _ _ Ha). simpl.
    rewrite HaA. exact E1.
  - unfold apply_subcommand. rewrite (get_attrs_Ok _ _ _ _ Hb1). simpl.
    rewrite HbB. exact E2.
  - exact HrA.
  - exact HrB.
  - exact Hattr.
  - intros dA dB new_name HdA HdB.
    rewrite HlA in HdA. rewrite HlB in HdB.
    injection HdA as <-. injection HdB as <-. split; [reflexivity|].
    unfold set_cmd_name, read_cmd_name.
    rewrite (get_attrs_Ok _ _ _ _ Hattr). simpl.
    eexists. split; [reflexivity|].
    rewrite (get_attrs_Ok _ _ _ (rename _ new_name))
      by (eapply attrs_of_set_same, Hf2).
    reflexivity.
Qed.

Lemma subcommand_of_two_parents_is_one_object_witness :
  exists st1 st2,
    apply_subcommand cleandoc A no_kwargs f parents = Ok (f, st1) /\
    apply_subcommand cleandoc B no_kwargs f st1 = Ok (f, st2) /\
    read_subcommands A st2 = Ok ([] ++ [f]) /\
    read_subcommands B st2 = Ok ([] ++ [f]) /\
    attrs_of f st2
      = Some (set_cmd_subcommand
                (fresh_attrs cleandoc no_kwargs (mkFunction "f" None None) f)
                true) /\
    (forall dA dB new_name,
       last_subcommand A st2 = Ok dA ->
       last_subcommand B st2 = Ok dB ->
       dA = dB /\
       exists st3, set_cmd_name dA new_name st2 = Ok st3 /\
                   read_cmd_name dB st3 = Ok new_name).
Proof.
  apply (subcommand_of_two_parents_is_one_object cleandoc no_kwargs no_kwargs
           A B f parents
           (fresh_attrs cleandoc no_kwargs (mkFunction "A" None None) A)
           (fresh_attrs cleandoc no_kwargs (mkFunction "B" None None) B)
           (mkFunction "f" None None));
    first [discriminate | reflexivity].
Defined.

End DecoratorProps.


(** * Further properties *)

(** ** The argument converter: the other parameter kinds *)

Module ConvertMore.
Import Py Utils Samples.Conv.

Lemma all_text_strs (l : list string) : all_text (map VStr l) = Some l.
Proof. induction l as [|x l IH]; simpl; [reflexivity|now rewrite IH]. Qed.

Lemma join_strs_values sep (l : list string) :
  join sep (map VStr l) = Ok (VStr (join_strs sep l)).
Proof. unfold join. now rewrite all_text_strs. Qed.

(** What both consume-all branches hand to the converter: the current
    token and the rest of the iterator, joined by single spaces; a single
    token is passed as it is. *)
Lemma gathered_text t ts :
  join " " (VStr t :: map VStr ts) = Ok (VStr (join_strs " " (t :: ts))).
Proof. exact (join_strs_values " " (t :: ts)). Qed.

(** X1: a keyword-only parameter that finds at least one token takes the
    current token and every token left, joins them with single spaces (one
    token alone is passed unchanged), converts the text and stores it
    under its name; no quotes are stripped, and the parameters after it
    see an exhausted iterator. *)
Theorem keyword_only_takes_all
    (ctx : Context) (p : Param) (rest : list Param) (t : string)
    (ts : list string) (fa : list value) (fk : Dict.t string value) :
  kind p = KEYWORD_ONLY ->
  convert_loop ctx (p :: rest) (t :: ts) fa fk =
    (try! v := _lookup_converter ctx (annotation p)
                 (VStr (join_strs " " (t :: ts))) in
     convert_loop ctx rest [] fa (Dict.set (name p) v fk)).
Proof.
  intros Hk. simpl convert_loop. unfold consume. rewrite Hk.
  destruct ts as [|t' ts].
  - reflexivity.
  - change (Nat.eqb (length (VStr t :: map VStr (t' :: ts))) 1) with false.
    cbv iota. rewrite gathered_text. reflexivity.
Qed.

Lemma keyword_only_takes_all_witness :
  convert_loop sample_ctx [p_b; p_a] ["x"; "y"] [] Dict.empty =
    (try! v := _lookup_converter sample_ctx (annotation p_b)
                 (VStr (join_strs " " ["x"; "y"])) in
     convert_loop sample_ctx [p_a] [] [] (Dict.set (name p_b) v Dict.empty)).
Proof. apply (keyword_only_takes_all sample_ctx p_b [p_a] "x" ["y"]). reflexivity. Defined.

(** X2: at a variadic-positional parameter an exhausted iterator ends
    the conversion with the arguments gathered so far, and the parameters
    after it are not looked at; with tokens left, all of them are joined
    with single spaces, converted and appended as one positional
    argument. *)
Theorem var_positional_stops_or_takes_all
    (ctx : Context) (p : Param) (rest : list Param)
    (fa : list value) (fk : Dict.t string value) :
  kind p = VAR_POSITIONAL ->
  convert_loop ctx (p :: rest) [] fa fk = Ok (fa, fk) /\
  (forall t ts,
     convert_loop ctx (p :: rest) (t :: ts) fa fk =
       (try! v := _lookup_converter ctx (annotation p)
                    (VStr (join_strs " " (t :: ts))) in
        convert_loop ctx rest [] (fa ++ [v]) fk)).
Proof.
  intros Hk. split.
  - simpl. now rewrite Hk.
  - intros t ts. simpl convert_loop. unfold consume. rewrite Hk.
    rewrite gathered_text. reflexivity.
Qed.

Lemma var_positional_stops_or_takes_all_witness :
  convert_loop sample_ctx [p_args; p_c] [] [] Dict.empty
    = Ok ([], Dict.empty).
Proof.
  apply (var_positional_stops_or_takes_all sample_ctx p_args [p_c]).
  reflexivity.
Defined.

(** The loop step of a consume-all parameter on a token. *)
Lemma consume_all_step ctx p t ts fa fk k :
  kind p = KEYWORD_ONLY \/ kind p = VAR_POSITIONAL ->
  consume ctx p (VStr t) ts fa fk k =
    (try! v := _lookup_converter ctx (annotation p)
                 (VStr (join_strs " " (t :: ts))) in
     if is_positional (kind p) then k [] fa fk
     else match kind p with
          | KEYWORD_ONLY => k [] fa (Dict.set (name p) v fk)
          | _ => k [] (fa ++ [v]) fk
          end).
Proof.
  unfold consume. intros [Hk|Hk]; rewrite Hk.
  - destruct ts as [|t' ts]; [reflexivity|].
    change (Nat.eqb (length (VStr t :: map VStr (t' :: ts))) 1) with false.
    cbv iota. rewrite gathered_text. reflexivity.
  - rewrite gathered_text. reflexivity.
Qed.

(** X3: once a keyword-only or variadic-positional parameter has taken
    the tokens, the next parameter finds none: if it is not variadic and
    has no default, the conversion raises MissingArgument naming it,
    although tokens were supplied. *)
Theorem parameter_after_consume_all_is_starved
    (ctx : Context) (p q : Param) (rest : list Param) (t : string)
    (ts : list string) (v : value)
    (fa : list value) (fk : Dict.t string value) :
  kind p = KEYWORD_ONLY \/ kind p = VAR_POSITIONAL ->
  _lookup_converter ctx (annotation p) (VStr (join_strs " " (t :: ts)))
    = Ok v ->
  kind q <> VAR_POSITIONAL ->
  default q = None ->
  convert_loop ctx (p :: q :: rest) (t :: ts) fa fk
    = Raise (MissingArgumentError (name q)).
Proof.
  intros Hk Hv Hq Hd.
  change (convert_loop ctx (p :: q :: rest) (t :: ts) fa fk)
    with (consume ctx p (VStr t) ts fa fk (convert_loop ctx (q :: rest))).
  rewrite (consume_all_step _ _ _ _ _ _ _ Hk), Hv.
  cbv beta iota delta [bind].
  assert (Hstarved : forall fa' fk',
            convert_loop ctx (q :: rest) [] fa' fk'
              = Raise (MissingArgumentError (name q))).
  { intros fa' fk'.
    rewrite (ConvertProps.convert_loop_exhausted _ _ _ _ _ Hq), Hd.
    reflexivity. }
  destruct Hk as [Hk|Hk]; rewrite Hk; simpl is_positional; cbv iota;
    apply Hstarved.
Qed.

Lemma parameter_after_consume_all_is_starved_witness :
  convert_loop sample_ctx [p_b; p_c] ["x"; "y"] [] Dict.empty
    = Raise (MissingArgumentError "c").
Proof.
  apply (parameter_after_consume_all_is_starved sample_ctx p_b p_c []
           "x" ["y"] (VStr "x y"));
    first [left; reflexivity | discriminate | reflexivity].
Defined.

(** X4: a variadic-keyword parameter never receives anything, but it is
    not skipped for free: it takes one token from the iterator and drops
    it, and when no token is left (it has no default) the conversion
    raises MissingArgument naming it. *)
Theorem var_keyword_drops_a_token
    (ctx : Context) (p : Param) (rest : list Param)
    (fa : list value) (fk : Dict.t string value) :
  kind p = VAR_KEYWORD ->
  (forall t ts,
     convert_loop ctx (p :: rest) (t :: ts) fa fk
       = convert_loop ctx rest ts fa fk) /\
  (default p = None ->
     convert_loop ctx (p :: rest) [] fa fk
       = Raise (MissingArgumentError (name p))).
Proof.
  intros Hk. split.
  - intros t ts. simpl convert_loop. unfold consume. now rewrite Hk.
  - intros Hd. simpl. now rewrite Hk, Hd.
Qed.

Lemma var_keyword_drops_a_token_witness :
  convert_loop sample_ctx [p_kwargs] ["x"] [] Dict.empty = Ok ([], Dict.empty)
  /\ convert_loop sample_ctx [p_kwargs] [] [] Dict.empty
       = Raise (MissingArgumentError "kwargs").
Proof.
  destruct (var_keyword_drops_a_token sample_ctx p_kwargs [] []
              Dict.empty eq_refl) as [Htok Hnone].
  split; [exact (Htok "x" [])|exact (Hnone eq_refl)].
Defined.

(** X5: ordinary positional parameters take one token each, in order:
    the i-th argument is the converter of the i-th parameter applied to
    the i-th token with its surrounding quotes stripped.  Tokens beyond
    the last parameter are ignored without error. *)
Theorem positional_one_token_each
    (ctx : Context) (pts : list (Param * string)) (vs : list value)
    (extra : list string) (fa : list value) (fk : Dict.t string value) :
  Forall (fun pt => is_positional (kind (fst pt)) = true) pts ->
  Forall2 (fun pt v =>
             _lookup_converter ctx (annotation (fst pt))
               (VStr (strip_quotes (snd pt))) = Ok v) pts vs ->
  convert_loop ctx (map fst pts) (map snd pts ++ extra) fa fk
    = Ok (fa ++ vs, fk).
Proof.
  intros Hpos Hconv. revert fa Hpos.
  induction Hconv as [|[p t] v pts vs Hv _ IH]; intros fa Hpos.
  - simpl. now rewrite app_nil_r.
  - apply Forall_cons_1 in Hpos as [Hp Hpos]. simpl in Hp, Hv.
    change (convert_loop ctx (map fst ((p, t) :: pts))
              (map snd ((p, t) :: pts) ++ extra) fa fk)
      with (consume ctx p (VStr t) (map snd pts ++ extra) fa fk
              (convert_loop ctx (map fst pts))).
    rewrite (ConvertProps.consume_positional _ _ _ _ _ _ _ Hp).
    simpl. rewrite Hv. simpl. rewrite (IH _ Hpos).
    now rewrite <- app_assoc.
Qed.

Lemma positional_one_token_each_witness :
  convert_loop sample_ctx [p_a; p_s] ["5"; "hi"; "more"] [] Dict.empty
    = Ok ([VInt 5; VStr "hi"], Dict.empty).
Proof.
  apply (positional_one_token_each sample_ctx [(p_a, "5"); (p_s, "hi")]
           [VInt 5; VStr "hi"] ["more"] [] Dict.empty).
  - repeat constructor.
  - repeat constructor.
Defined.

(** Whatever a loop step does before it goes on: at most one positional
    argument more, and a keyword entry only under the name of a
    keyword-only parameter. *)
Lemma consume_continues ctx p arg it fa fk k r :
  consume ctx p arg it fa fk k = Ok r ->
  exists it' fa' fk',
    k it' fa' fk' = Ok r /\
    length fa' <= S (length fa) /\
    (fk' = fk \/
     (kind p = KEYWORD_ONLY /\ exists v, fk' = Dict.set (name p) v fk)).
Proof.
  unfold consume. destruct (kind p) eqn:Hk.
  - destruct (replace_quotes arg) as [arg'|]; simpl; [|discriminate].
    destruct (_lookup_converter ctx (annotation p) arg') as [v|]; simpl;
      [|discriminate].
    intros H. exists it, (fa ++ [v]), fk. rewrite length_app. simpl.
    split; [exact H|]. split; [lia|now left].
  - destruct (replace_quotes arg) as [arg'|]; simpl; [|discriminate].
    destruct (_lookup_converter ctx (annotation p) arg') as [v|]; simpl;
      [|discriminate].
    intros H. exists it, (fa ++ [v]), fk. rewrite length_app. simpl.
    split; [exact H|]. split; [lia|now left].
  - destruct (join " " (arg :: map VStr it)) as [j|]; simpl; [|discriminate].
    destruct (_lookup_converter ctx (annotation p) j) as [v|]; simpl;
      [|discriminate].
    intros H. exists [], (fa ++ [v]), fk. rewrite length_app. simpl.
    split; [exact H|]. split; [lia|now left].
  - destruct (if Nat.eqb (length (arg :: map VStr it)) 1
              then _lookup_converter ctx (annotation p) arg
              else try! joined := join " " (arg :: map VStr it) in
                   _lookup_converter ctx (annotation p) joined) as [v|];
      simpl; [|discriminate].
    intros H. exists [], fa, (Dict.set (name p) v fk).
    split; [exact H|]. split; [lia|]. right. split; [reflexivity|eauto].
  - intros H. exists it, fa, fk. split; [exact H|]. split; [lia|now left].
Qed.

Lemma convert_loop_results ctx ps it fa fk args kwargs :
  convert_loop ctx ps it fa fk = Ok (args, kwargs) ->
  (forall key, In key (Dict.keys kwargs) ->
     In key (Dict.keys fk) \/
     exists p, In p ps /\ kind p = KEYWORD_ONLY /\ name p = key) /\
  length args <= length fa + length ps.
Proof.
  revert it fa fk. induction ps as [|p ps IH]; intros it fa fk H.
  - simpl in H. injection H as <- <-. split; [auto|simpl; lia].
  - assert (Hstep : (exists it' fa' fk',
              convert_loop ctx ps it' fa' fk' = Ok (args, kwargs) /\
              length fa' <= S (length fa) /\
              (fk' = fk \/
               (kind p = KEYWORD_ONLY /\
                exists v, fk' = Dict.set (name p) v fk)))
            \/ (args = fa /\ kwargs = fk)).
    { destruct it as [|t ts].
      - assert (Hcase : kind p = VAR_POSITIONAL \/ kind p <> VAR_POSITIONAL)
          by (destruct (kind p); auto; right; discriminate).
        destruct Hcase as [Hk|Hk].
        + simpl in H. rewrite Hk in H. injection H as <- <-.
          right. split; reflexivity.
        + rewrite (ConvertProps.convert_loop_exhausted _ _ _ _ _ Hk) in H.
          destruct (default p) as [d|]; [|discriminate H].
          left. exact (consume_continues _ _ _ _ _ _ _ _ H).
      - left. exact (consume_continues _ _ _ _ _ _ _ _ H). }
    destruct Hstep as [(it' & fa' & fk' & Hrec & Hlen & Hfk)|[-> ->]].
    + destruct (IH _ _ _ Hrec) as [Hkeys Hargs]. split; [|simpl; lia].
      intros key Hin. destruct (Hkeys key Hin) as [Hold|(q & Hq & Hkq & Hnq)].
      * destruct Hfk as [->|(Hk & v & ->)]; [now left|].
        destruct (DictProps.keys_set _ _ _ _ Hold) as [->|Hin'];
          [right; exists p; simpl; auto|now left].
      * right. exists q. simpl. auto.
    + split; [auto|simpl; lia].
Qed.

(** X6: in a conversion that succeeds, the keyword arguments are stored
    only under names of keyword-only parameters of the signature (the
    first parameter apart), and there are never more positional
    arguments than parameters after the first. *)
Theorem kwargs_come_from_keyword_only
    (ctx : Context) (tokens : list string) (signature : Signature)
    (args : list value) (kwargs : Dict.t string value) :
  _convert ctx tokens signature = Ok (args, kwargs) ->
  (forall key, In key (Dict.keys kwargs) ->
     exists p, In p (tl signature) /\ kind p = KEYWORD_ONLY /\ name p = key)
  /\ length args <= length (tl signature).
Proof.
  unfold _convert. intros H.
  destruct (convert_loop_results _ _ _ _ _ _ _ H) as [Hkeys Hlen].
  split; [|exact Hlen].
  intros key Hin. destruct (Hkeys key Hin) as [[]|Hp]. exact Hp.
Qed.

Lemma kwargs_come_from_keyword_only_witness :
  (forall key, In key (Dict.keys [("b", VStr "rest of line")]) ->
     exists p, In p (tl [p_ctx; p_a; p_b]) /\ kind p = KEYWORD_ONLY /\
               name p = key)
  /\ length [VInt 5] <= length (tl [p_ctx; p_a; p_b]).
Proof.
  apply (kwargs_come_from_keyword_only sample_ctx
           ["5"; "rest"; "of"; "line"] [p_ctx; p_a; p_b]).
  reflexivity.
Defined.

End ConvertMore.

(** ** The tokenizer: every delimiter, every input *)

Module TokenizerMore.
Import Py Utils TextProps TokenizerProps Samples.Text.

(** The last step of [split_message_content]. *)
Lemma restore_is_swap x : Py.replace (chr NUL) " " x = map_chars (swap NUL space) x.
Proof. change " " with (chr space). apply replace_chr. Qed.

Lemma split_go_not_space word s :
  all_chars not_space word = true ->
  Forall (fun x => all_chars not_space x = true) (split_go word s).
Proof.
  revert word. induction s as [|c s IH]; simpl; intros word Hw.
  - destruct word; simpl; constructor; [exact Hw|constructor].
  - destruct (isspace c) eqn:Hc.
    + apply Forall_app. split; [|apply IH; reflexivity].
      destruct word; simpl; constructor; [exact Hw|constructor].
    + apply IH. rewrite all_chars_append, Hw. simpl.
      unfold not_space. now rewrite Hc.
Qed.

Lemma restore_has_no_NUL x :
  contains_char NUL (map_chars (swap NUL space) x) = false.
Proof.
  induction x as [|c x IH]; simpl; [reflexivity|]. rewrite IH, orb_false_r.
  unfold swap. destruct (Ascii.eqb c NUL) eqn:E; [reflexivity|exact E].
Qed.

Lemma restore_only_blank x :
  all_chars not_space x = true ->
  all_chars space_is_only_blank (map_chars (swap NUL space) x) = true.
Proof.
  induction x as [|c x IH]; simpl; [reflexivity|].
  intros H. apply andb_prop in H as [Hc Hx]. rewrite (IH Hx), andb_true_r.
  unfold swap, space_is_only_blank. destruct (Ascii.eqb c NUL).
  - reflexivity.
  - unfold not_space in Hc. now rewrite Hc.
Qed.

(** X7: whatever the content and the delimiter, no token is empty, no
    token holds a NUL, and the only whitespace a token can hold is the
    space character. *)
Theorem tokens_are_well_formed (content delim tok : string) :
  In tok (split_message_content content delim) ->
  tok <> EmptyString /\
  contains_char NUL tok = false /\
  all_chars space_is_only_blank tok = true.
Proof.
  unfold split_message_content. cbv zeta. intros Hin.
  apply in_map_iff in Hin as (x & Hx & Hin). rewrite restore_is_swap in Hx.
  subst tok. split; [|split].
  - apply split_go_nonempty in Hin. destruct x; [congruence|discriminate].
  - apply restore_has_no_NUL.
  - apply restore_only_blank.
    pose proof (split_go_not_space EmptyString
                  (re_sub_quoted (fun m => Py.replace delim (chr NUL) m) content)
                  eq_refl) as Hall.
    rewrite List.Forall_forall in Hall. apply Hall. exact Hin.
Qed.

Lemma tokens_are_well_formed_witness :
  (q ++ "Fuyukai desu" ++ q)%string <> EmptyString /\
  contains_char NUL (q ++ "Fuyukai desu" ++ q) = false /\
  all_chars space_is_only_blank (q ++ "Fuyukai desu" ++ q) = true.
Proof.
  apply (tokens_are_well_formed docstring_content " ").
  right. left. reflexivity.
Defined.

(** Content without a double quote passes the substitution unchanged. *)
Lemma unquoted_content (u delim : string) :
  contains_char dquote u = false ->
  split_message_content u delim
    = map (map_chars (swap NUL space)) (Py.split u).
Proof.
  intros Hq. unfold split_message_content, re_sub_quoted. cbv zeta.
  pose proof (re_sub_go_copies (fun m => Py.replace delim (chr NUL) m)
                u EmptyString Hq) as E.
  rewrite append_nil_r in E. simpl re_sub_go in E.
  rewrite append_nil_r in E. rewrite E.
  apply map_ext. exact restore_is_swap.
Qed.

(** X8: outside double quotes the delimiter plays no part: content
    without a double quote is cut at its whitespace whatever [delim] is,
    so a delimiter other than whitespace cuts nothing. *)
Theorem delimiter_is_ignored_without_quotes (u delim : string) :
  contains_char dquote u = false ->
  split_message_content u delim = tokenize u /\
  split_message_content u delim
    = map (map_chars (swap NUL space)) (Py.split u).
Proof.
  intros Hq. pose proof (unquoted_content u delim Hq) as E.
  split; [|exact E]. rewrite E. symmetry. apply tokenize_unquoted, Hq.
Qed.

Lemma delimiter_is_ignored_without_quotes_witness :
  split_message_content "a,b c" "," = tokenize "a,b c" /\
  split_message_content "a,b c" ","
    = map (map_chars (swap NUL space)) (Py.split "a,b c").
Proof.
  apply (delimiter_is_ignored_without_quotes "a,b c" ","). reflexivity.
Defined.

Lemma lazy_close_none w : contains_char dquote w = false -> lazy_close w = None.
Proof.
  induction w as [|c w IH]; simpl; [reflexivity|].
  intros H. apply orb_false_elim in H as [Hc Hw]. rewrite Hc, (IH Hw).
  now destruct (Ascii.eqb c newline).
Qed.

Lemma match_quoted_unclosed post :
  contains_char dquote post = false ->
  match_quoted (String dquote post) = None.
Proof.
  destruct post as [|c r]; [reflexivity|]. simpl.
  intros H. apply orb_false_elim in H as [_ Hr].
  rewrite (lazy_close_none _ Hr). now destruct (negb (Ascii.eqb c newline)).
Qed.

Lemma re_sub_go_unclosed replacer pre post :
  contains_char dquote pre = false ->
  contains_char dquote post = false ->
  re_sub_go replacer 0 (pre ++ String dquote post)
    = (pre ++ String dquote post)%string.
Proof.
  intros Hpre Hpost. rewrite (re_sub_go_copies _ _ _ Hpre). f_equal.
  rewrite re_sub_go_here, (match_quoted_unclosed _ Hpost). f_equal.
  pose proof (re_sub_go_copies replacer post EmptyString Hpost) as E.
  rewrite append_nil_r in E. simpl re_sub_go in E.
  now rewrite append_nil_r in E.
Qed.

Lemma contains_char_append c a b :
  contains_char c (a ++ b) = contains_char c a || contains_char c b.
Proof.
  induction a as [|x a IH]; simpl; [reflexivity|].
  now rewrite IH, orb_assoc.
Qed.

(** X9: a double quote without a partner is an ordinary character: when
    the content holds exactly one double quote, it is cut at its
    whitespace like text without quotes (a NUL comes out as a space), and
    when it holds no NUL the tokens are exactly the whitespace-separated
    words. *)
Theorem unmatched_quote_is_ordinary (pre post delim : string) :
  contains_char dquote pre = false ->
  contains_char dquote post = false ->
  split_message_content (pre ++ String dquote post) delim
    = map (map_chars (swap NUL space)) (Py.split (pre ++ String dquote post))
  /\ (contains_char NUL pre = false -> contains_char NUL post = false ->
      split_message_content (pre ++ String dquote post) delim
        = Py.split (pre ++ String dquote post)).
Proof.
  intros Hpre Hpost.
  assert (E : split_message_content (pre ++ String dquote post) delim
              = map (map_chars (swap NUL space))
                    (Py.split (pre ++ String dquote post))).
  { unfold split_message_content, re_sub_quoted. cbv zeta.
    rewrite (re_sub_go_unclosed _ _ _ Hpre Hpost).
    apply map_ext. exact restore_is_swap. }
  split; [exact E|]. intros Hn1 Hn2. rewrite E.
  assert (Hn : contains_char NUL (pre ++ String dquote post) = false).
  { rewrite contains_char_append, Hn1. simpl. exact Hn2. }
  pose proof (split_go_chars NUL EmptyString _ eq_refl Hn) as Hall.
  fold (Py.split (pre ++ String dquote post)) in Hall. clear E Hn.
  induction Hall as [|x l Hx _ IH]; simpl; [reflexivity|].
  now rewrite (no_NUL_restore _ Hx), IH.
Qed.

Lemma unmatched_quote_is_ordinary_witness :
  split_message_content ("say " ++ String dquote "hello world") " "
    = ["say"; String dquote "hello"; "world"].
Proof.
  apply (proj2 (unmatched_quote_is_ordinary "say " "hello world" " "
                  eq_refl eq_refl)); reflexivity.
Defined.

(** The tokenizer for a one-character delimiter [d]. *)
Lemma one_char_delimiter d s :
  split_message_content s (chr d) =
    map (map_chars (swap NUL space))
        (Py.split (re_sub_go (map_chars (swap d NUL)) 0 s)).
Proof.
  unfold split_message_content, re_sub_quoted. cbv zeta.
  rewrite (re_sub_go_ext (fun m => Py.replace (chr d) (chr NUL) m)
             (map_chars (swap d NUL)) 0 s (replace_chr d NUL)).
  apply map_ext. exact restore_is_swap.
Qed.

Lemma delimiter_to_NUL_not_space d body :
  all_chars (fun c => not_space c || Ascii.eqb c d) body = true ->
  all_chars not_space (map_chars (swap d NUL) body) = true.
Proof.
  induction body as [|c body IH]; simpl; [reflexivity|].
  intros H. apply andb_prop in H as [Hc Hb]. rewrite (IH Hb), andb_true_r.
  unfold swap. destruct (Ascii.eqb c d); [reflexivity|].
  now rewrite orb_false_r in Hc.
Qed.

Lemma delimiter_to_space d body :
  contains_char NUL body = false ->
  map_chars (swap NUL space) (map_chars (swap d NUL) body)
    = map_chars (swap d space) body.
Proof.
  induction body as [|c body IH]; simpl; [reflexivity|].
  intros H. apply orb_false_elim in H as [Hc Hb]. rewrite (IH Hb). f_equal.
  unfold swap. destruct (Ascii.eqb c d); [reflexivity|now rewrite Hc].
Qed.

(** X10: with a one-character delimiter [d] other than the double
    quote, a quoted run standing on its own whose body has no whitespace
    except possibly [d] itself is one token, but every [d] inside it
    comes out as a space: the sentinel is turned back into a space, not
    into the delimiter. *)
Theorem quoted_delimiters_become_spaces
    (d : ascii) (pre body post : string) :
  Ascii.eqb d dquote = false ->
  contains_char dquote pre = false ->
  word_ends pre = true ->
  body <> EmptyString ->
  contains_char dquote body = false ->
  contains_char newline body = false ->
  contains_char NUL body = false ->
  all_chars (fun c => not_space c || Ascii.eqb c d) body = true ->
  word_starts post = true ->
  split_message_content (pre ++ String dquote (body ++ String dquote post))
                        (chr d)
    = split_message_content pre (chr d)
      ++ [String dquote (map_chars (swap d space) body ++ chr dquote)]
      ++ split_message_content post (chr d).
Proof.
  intros Hd Hpq Hpe Hne Hbq Hbl Hbn Hbb Hps.
  rewrite (unquoted_content pre (chr d) Hpq), (one_char_delimiter d post),
    one_char_delimiter.
  rewrite (re_sub_go_copies _ _ _ Hpq).
  rewrite (re_sub_go_quoted _ _ _ Hne Hbq Hbl).
  set (T := re_sub_go (map_chars (swap d NUL)) 0 post).
  set (W := map_chars (swap d NUL) (String dquote (body ++ chr dquote))).
  assert (Hq : swap d NUL dquote = dquote).
  { unfold swap. rewrite Ascii.eqb_sym. now rewrite Hd. }
  assert (HW : all_chars not_space W = true).
  { unfold W. simpl. rewrite Hq, map_chars_append, all_chars_append.
    rewrite (delimiter_to_NUL_not_space _ _ Hbb). simpl. now rewrite Hq. }
  assert (HWne : W <> EmptyString) by (unfold W; simpl; discriminate).
  rewrite (split_around pre W T Hpe HWne HW (re_sub_go_starts _ _ Hps)).
  rewrite !map_app. f_equal. f_equal. simpl. f_equal.
  unfold W. simpl. rewrite Hq, !map_chars_append.
  rewrite (delimiter_to_space d body Hbn). simpl. now rewrite Hq.
Qed.

Lemma quoted_delimiters_become_spaces_witness :
  split_message_content ("say " ++ String dquote ("a,b" ++ String dquote " now"))
                        ","
    = ["say"; String dquote ("a b" ++ chr dquote); "now"].
Proof.
  apply (quoted_delimiters_become_spaces ","%char "say " "a,b" " now");
    first [discriminate | reflexivity].
Defined.

End TokenizerMore.

(** ** The prefix matcher: candidates, dynamic prefixes, results *)

Module MatcherMore.
Import Py Utils TextProps.

Lemma first_prefix_skips content before p after :
  Forall (fun x => startswith content x = false) before ->
  startswith content p = true ->
  first_prefix content (before ++ p :: after) = Some p.
Proof.
  intros Hb Hp. induction Hb as [|x before Hx _ IH]; simpl.
  - now rewrite Hp.
  - now rewrite Hx.
Qed.

Lemma first_prefix_none content ps :
  Forall (fun x => startswith content x = false) ps ->
  first_prefix content ps = None.
Proof.
  intros H. induction H as [|x ps Hx _ IH]; simpl; [reflexivity|].
  now rewrite Hx.
Qed.

(** X11: with a list of candidates the first one, in list order, that
    the content starts with is selected, and the matcher then behaves
    exactly as if that candidate were the only prefix; nothing prefers a
    longer candidate further down the list. *)
Theorem first_candidate_in_order_wins
    (before after : list string) (p : string) (message : Message) :
  Forall (fun x => startswith (content message) x = false) before ->
  startswith (content message) p = true ->
  prefix_check_factory (Static (PrefixList (before ++ p :: after))) message
    = prefix_check_factory (Static (PrefixStr p)) message.
Proof.
  intros Hb Hp. unfold prefix_check_factory.
  rewrite (first_prefix_skips _ _ _ _ Hb Hp), Hp. reflexivity.
Qed.

Lemma first_candidate_in_order_wins_witness :
  prefix_check_factory (Static (PrefixList ["?"; "!"; "!!"]))
                       (mkMessage "!!ping a")
    = prefix_check_factory (Static (PrefixStr "!")) (mkMessage "!!ping a").
Proof.
  apply (first_candidate_in_order_wins ["?"] ["!!"] "!" (mkMessage "!!ping a")).
  - repeat constructor.
  - reflexivity.
Defined.

(** X12: when the content starts with none of the configured prefixes
    the matcher returns no match, for a single prefix as for a list. *)
Theorem no_candidate_no_match (ps : list string) (message : Message) :
  Forall (fun x => startswith (content message) x = false) ps ->
  prefix_check_factory (Static (PrefixList ps)) message = Ok None /\
  (forall p, In p ps ->
     prefix_check_factory (Static (PrefixStr p)) message = Ok None).
Proof.
  intros H. split.
  - unfold prefix_check_factory. now rewrite (first_prefix_none _ _ H).
  - intros p Hin. rewrite List.Forall_forall in H.
    unfold prefix_check_factory. now rewrite (H p Hin).
Qed.

Lemma no_candidate_no_match_witness :
  prefix_check_factory (Static (PrefixList ["?"; "!"])) (mkMessage "ping")
    = Ok None.
Proof.
  refine (proj1 (no_candidate_no_match ["?"; "!"] (mkMessage "ping") _)).
  repeat constructor.
Defined.

Lemma startswith_empty s : startswith s EmptyString = true.
Proof. unfold startswith. now destruct s. Qed.

(** X13: the empty text never works as a prefix.  Alone it matches
    nothing, although every content starts with it; in a list it is
    selected as soon as it is reached and the matcher gives up, so the
    candidates after it are never tried. *)
Theorem empty_prefix_matches_nothing
    (before after : list string) (message : Message) :
  prefix_check_factory (Static (PrefixStr EmptyString)) message = Ok None /\
  (Forall (fun x => startswith (content message) x = false) before ->
   prefix_check_factory
     (Static (PrefixList (before ++ EmptyString :: after))) message
     = Ok None).
Proof.
  split.
  - unfold prefix_check_factory. now rewrite startswith_empty.
  - intros Hb. unfold prefix_check_factory.
    now rewrite (first_prefix_skips _ _ _ _ Hb (startswith_empty _)).
Qed.

Lemma empty_prefix_matches_nothing_witness :
  prefix_check_factory (Static (PrefixList ["?"; EmptyString; "!"]))
                       (mkMessage "!ping")
    = Ok None.
Proof.
  apply (proj2 (empty_prefix_matches_nothing ["?"] ["!"] (mkMessage "!ping"))).
  repeat constructor.
Defined.





End MatcherMore.

(** ** Descriptions and decorators *)

Module DecoratorMore.
Import Py Decorators DecoratorProps TextProps Samples.Deco.

(** The first part of a split: the text before the first separator. *)
Lemma split_on_go_head sep word s :
  exists line,
    hd_error (split_on_go sep word s) = Some (word ++ line)%string /\
    contains_char sep line = false /\
    (s = line \/ exists rest, s = (line ++ String sep rest)%string).
Proof.
  revert word. induction s as [|c s IH]; intros word; simpl.
  - exists EmptyString. rewrite append_nil_r. auto.
  - destruct (Ascii.eqb c sep) eqn:E.
    + apply Ascii.eqb_eq in E. subst c. exists EmptyString.
      rewrite append_nil_r. simpl. split; [reflexivity|].
      split; [reflexivity|]. right. exists s. reflexivity.
    + destruct (IH (word ++ chr c)%string) as (line & Hhd & Hno & Hs).
      exists (String c line). rewrite Hhd, append_chr. simpl.
      rewrite E, Hno. split; [reflexivity|]. split; [reflexivity|].
      destruct Hs as [->|[rest ->]]; [now left|right; now exists rest].
Qed.

(** X15: a function without a docstring, or with an empty one, has no
    description; otherwise the description is the cleaned docstring up to
    its first line break, and never holds a line break. *)
Theorem description_is_first_line (cleandoc : string -> string) :
  Utils.get_description cleandoc None = None /\
  Utils.get_description cleandoc (Some EmptyString) = None /\
  (forall d, d <> EmptyString ->
     exists line,
       Utils.get_description cleandoc (Some d) = Some line /\
       contains_char newline line = false /\
       (cleandoc d = line \/
        exists rest, cleandoc d = (line ++ String newline rest)%string)).
Proof.
  split; [reflexivity|]. split; [reflexivity|].
  intros d Hd.
  destruct (split_on_go_head newline EmptyString (cleandoc d))
    as (line & Hhd & Hno & Hs).
  exists line. split; [|split; assumption].
  destruct d; [congruence|]. exact Hhd.
Qed.

Lemma description_is_first_line_witness :
  exists line,
    Utils.get_description cleandoc (Some ("Pings." ++ chr newline ++ "More.")%string)
      = Some line /\
    contains_char newline line = false /\
    (cleandoc ("Pings." ++ chr newline ++ "More.")%string = line \/
     exists rest,
       cleandoc ("Pings." ++ chr newline ++ "More.")%string
         = (line ++ String newline rest)%string).
Proof.
  apply (proj2 (proj2 (description_is_first_line cleandoc))).
  discriminate.
Defined.

(** X16: subcommands are kept in registration order.  For distinct
    objects [A], [f] and [g], [A.subcommand(...)(f)] followed by
    [A.subcommand(...)(g)] appends [f] and then [g] to the list of [A],
    marks both as subcommands with empty lists of their own, keeps the
    name of [A], and touches no other object. *)
Theorem subcommands_in_registration_order
    (cleandoc : string -> string) (kw1 kw2 : Kwargs)
    (A f g : ref) (st : Store) (a : Attrs) (fn gn : Function) :
  A <> f -> A <> g -> f <> g ->
  attrs_of A st = Some a -> subcommand a = A ->
  st !! f = Some fn ->
  st !! g = Some gn ->
  exists st1 st2,
    apply_subcommand cleandoc A kw1 f st = Ok (f, st1) /\
    apply_subcommand cleandoc A kw2 g st1 = Ok (g, st2) /\
    read_subcommands A st2 = Ok (cmd_subcommands a ++ [f; g]) /\
    attrs_of f st2
      = Some (set_cmd_subcommand (fresh_attrs cleandoc kw1 fn f) true) /\
    attrs_of g st2
      = Some (set_cmd_subcommand (fresh_attrs cleandoc kw2 gn g) true) /\
    read_cmd_name A st2 = Ok (cmd_name a) /\
    (forall r, r <> A -> r <> f -> r <> g -> st2 !! r = st !! r).
Proof.
  intros HAf HAg Hfg Ha HaA Hf Hg.
  destruct (_subcommand_spec cleandoc A kw1 f st fn a HAf Hf Ha)
    as (st1 & E1 & Hf1 & HA1 & Hrest1).
  assert (Hg1 : st1 !! g = Some gn)
    by (rewrite (Hrest1 g (not_eq_sym Hfg) (not_eq_sym HAg)); exact Hg).
  destruct (_subcommand_spec cleandoc A kw2 g st1 gn _ HAg Hg1 HA1)
    as (st2 & E2 & Hg2 & HA2 & Hrest2).
  exists st1, st2. repeat split.
  - unfold apply_subcommand. rewrite (get_attrs_Ok _ _ _ _ Ha). simpl.
    rewrite HaA. exact E1.
  - unfold apply_subcommand. rewrite (get_attrs_Ok _ _ _ _ HA1). simpl.
    rewrite HaA. exact E2.
  - unfold read_subcommands. rewrite (get_attrs_Ok _ _ _ _ HA2). simpl.
    now rewrite <- app_assoc.
  - unfold attrs_of. rewrite (Hrest2 f Hfg (not_eq_sym HAf)), Hf1.
    reflexivity.
  - rewrite (attrs_of_lookup _ _ _ Hg2). reflexivity.
  - unfold read_cmd_name. rewrite (get_attrs_Ok _ _ _ _ HA2). reflexivity.
  - intros r HrA Hrf Hrg. rewrite (Hrest2 r Hrg HrA). apply Hrest1; assumption.
Qed.

Lemma subcommands_in_registration_order_witness :
  exists st1 st2,
    apply_subcommand cleandoc A no_kwargs f parents = Ok (f, st1) /\
    apply_subcommand cleandoc A no_kwargs B st1 = Ok (B, st2) /\
    read_subcommands A st2 = Ok ([] ++ [f; B]) /\
    attrs_of f st2
      = Some (set_cmd_subcommand
                (fresh_attrs cleandoc no_kwargs (mkFunction "f" None None) f)
                true) /\
    attrs_of B st2
      = Some (set_cmd_subcommand
                (fresh_attrs cleandoc no_kwargs
                   (mkFunction "B" None
                      (Some (fresh_attrs cleandoc no_kwargs
                               (mkFunction "B" None None) B))) B)
                true) /\
    read_cmd_name A st2 = Ok "A" /\
    (forall r, r <> A -> r <> f -> r <> B -> st2 !! r = parents !! r).
Proof.
  apply (subcommands_in_registration_order cleandoc no_kwargs no_kwargs
           A f B parents
           (fresh_attrs cleandoc no_kwargs (mkFunction "A" None None) A));
    first [discriminate | reflexivity].
Defined.

(** X17: subcommands nest.  After [A.subcommand(...)(f)] the object [f]
    carries a decorator of its own, and [f.subcommand(...)(g)] puts [g]
    under [f] and nowhere else: the list of [A] ends with [f] only, the
    list of [f] is exactly [g], the list of [g] is empty. *)
Theorem subcommands_nest
    (cleandoc : string -> string) (kw1 kw2 : Kwargs)
    (A f g : ref) (st : Store) (a : Attrs) (fn gn : Function) :
  A <> f -> A <> g -> f <> g ->
  attrs_of A st = Some a -> subcommand a = A ->
  st !! f = Some fn ->
  st !! g = Some gn ->
  exists st1 st2,
    apply_subcommand cleandoc A kw1 f st = Ok (f, st1) /\
    apply_subcommand cleandoc f kw2 g st1 = Ok (g, st2) /\
    read_subcommands A st2 = Ok (cmd_subcommands a ++ [f]) /\
    read_subcommands f st2 = Ok [g] /\
    read_subcommands g st2 = Ok [] /\
    (forall r, r <> A -> r <> f -> r <> g -> st2 !! r = st !! r).
Proof.
  intros HAf HAg Hfg Ha HaA Hf Hg.
  destruct (_subcommand_spec cleandoc A kw1 f st fn a HAf Hf Ha)
    as (st1 & E1 & Hf1 & HA1 & Hrest1).
  assert (Hg1 : st1 !! g = Some gn)
    by (rewrite (Hrest1 g (not_eq_sym Hfg) (not_eq_sym HAg)); exact Hg).
  pose proof (attrs_of_lookup _ _ _ Hf1) as Hfa. simpl in Hfa.
  destruct (_subcommand_spec cleandoc f kw2 g st1 gn _ Hfg Hg1 Hfa)
    as (st2 & E2 & Hg2 & Hf2 & Hrest2).
  exists st1, st2. repeat split.
  - unfold apply_subcommand. rewrite (get_attrs_Ok _ _ _ _ Ha). simpl.
    rewrite HaA. exact E1.
  - unfold apply_subcommand. rewrite (get_attrs_Ok _ _ _ _ Hfa). simpl.
    exact E2.
  - unfold read_subcommands, get_attrs, attrs_of.
    rewrite (Hrest2 A HAg HAf).
    unfold attrs_of in HA1. destruct (st1 !! A); [|discriminate].
    rewrite HA1. reflexivity.
  - unfold read_subcommands. rewrite (get_attrs_Ok _ _ _ _ Hf2). reflexivity.
  - unfold read_subcommands.
    rewrite (get_attrs_Ok _ _ _ _ (attrs_of_lookup _ _ _ Hg2)). reflexivity.
  - intros r HrA Hrf Hrg. rewrite (Hrest2 r Hrg Hrf). apply Hrest1; assumption.
Qed.

Lemma subcommands_nest_witness :
  exists st1 st2,
    apply_subcommand cleandoc A no_kwargs f parents = Ok (f, st1) /\
    apply_subcommand cleandoc f no_kwargs B st1 = Ok (B, st2) /\
    read_subcommands A st2 = Ok ([] ++ [f]) /\
    read_subcommands f st2 = Ok [B] /\
    read_subcommands B st2 = Ok [] /\
    (forall r, r <> A -> r <> f -> r <> B -> st2 !! r = parents !! r).
Proof.
  apply (subcommands_nest cleandoc no_kwargs no_kwargs A f B parents
           (fresh_attrs cleandoc no_kwargs (mkFunction "A" None None) A)
           (mkFunction "f" None None)
           (mkFunction "B" None
              (Some (fresh_attrs cleandoc no_kwargs
                       (mkFunction "B" None None) B))));
    first [discriminate | reflexivity].
Defined.

(** X18: registering a command as a subcommand annotates it afresh, so
    whatever subcommands it had are forgotten: after
    [B.subcommand(...)(A)] the list of [A] is empty, while [A] is
    appended to the list of [B]. *)
Theorem registration_forgets_own_subcommands
    (cleandoc : string -> string) (kw : Kwargs)
    (A B : ref) (st : Store) (b : Attrs) (fnA : Function) :
  A <> B ->
  st !! A = Some fnA ->
  attrs_of B st = Some b -> subcommand b = B ->
  exists st',
    apply_subcommand cleandoc B kw A st = Ok (A, st') /\
    read_subcommands A st' = Ok [] /\
    read_subcommands B st' = Ok (cmd_subcommands b ++ [A]).
Proof.
  intros HAB HA Hb HbB.
  destruct (_subcommand_spec cleandoc B kw A st fnA b (not_eq_sym HAB) HA Hb)
    as (st' & E & HA' & HB' & _).
  exists st'. repeat split.
  - unfold apply_subcommand. rewrite (get_attrs_Ok _ _ _ _ Hb). simpl.
    rewrite HbB. exact E.
  - unfold read_subcommands.
    rewrite (get_attrs_Ok _ _ _ _ (attrs_of_lookup _ _ _ HA')). reflexivity.
  - unfold read_subcommands. rewrite (get_attrs_Ok _ _ _ _ HB'). reflexivity.
Qed.

Lemma registration_forgets_own_subcommands_witness :
  exists st',
    apply_subcommand cleandoc B no_kwargs A with_child = Ok (A, st') /\
    read_subcommands A st' = Ok [] /\
    read_subcommands B st' = Ok ([] ++ [A]).
Proof.
  apply (registration_forgets_own_subcommands cleandoc no_kwargs A B
           with_child
           (fresh_attrs cleandoc no_kwargs (mkFunction "B" None None) B)
           (mkFunction "A" None
              (Some (append_subcommand
                       (fresh_attrs cleandoc no_kwargs
                          (mkFunction "A" None None) A) f))));
    first [discriminate | reflexivity].
Defined.

End DecoratorMore.


(** ** Dictionaries, continued *)

Module DictMore.
Section DictMore.
Context {K V : Type} `{EqDecision K}.
Implicit Types (d : Dict.t K V) (k : K) (v : V).

(** Assigning to a new key appends it. *)
Lemma set_fresh k v d :
  Dict.get k d = None -> Dict.set k v d = d ++ [(k, v)].
Proof.
  induction d as [|[k' v'] d IH]; simpl; [reflexivity|].
  destruct (decide (k' = k)); [discriminate|].
  intros Hd. now rewrite (IH Hd).
Qed.


Lemma get_set k k' v d :
  Dict.get k' (Dict.set k v d)
    = if decide (k = k') then Some v else Dict.get k' d.
Proof.
  destruct (decide (k = k')) as [->|N].
  - apply DictProps.get_set_same.
  - now apply DictProps.get_set_other.
Qed.
End DictMore.
End DictMore.

(** ** The manager: loading, unloading, the standalone table *)

Module ManagerMore.
Import Py Manager Samples.Mgr.

(** X19: [load_plugin] registers a plugin exactly when its load hook
    succeeds.  If the hook raises, the exception is the outcome, no task
    is spawned and the registry, the command-table cache, the standalone
    table and the module map stay as they were.  If it succeeds, a task
    is spawned after the hook, the plugin is registered under its name
    together with the scope of that task, its command table is cached
    under the instance, and with a module given the instance is the last
    entry of that module's list. *)
Theorem load_plugin_registers_iff_hook_succeeds
    (klass : PluginClass) (module : option string) (m : CommandsManager) :
  (forall e, plugin_load klass = Raise e ->
     exists m1,
       load_plugin klass module m = (Raise e, m1) /\
       plugins m1 = plugins m /\
       _plugin_command_cache m1 = _plugin_command_cache m /\
       commands m1 = commands m /\
       _module_plugins m1 = _module_plugins m /\
       events m1 = events m ++ [PluginLoadCalled (next_object m)]) /\
  (plugin_load klass = Ok tt ->
     exists m1,
       let inst := mkPlugin (next_object m) klass in
       let scope := mkCancelScope (S (next_object m)) in
       load_plugin klass module m = (Ok inst, m1) /\
       Dict.get (name_of_class klass) (plugins m1) = Some (inst, scope) /\
       Dict.get (KeyInstance (next_object m)) (_plugin_command_cache m1)
         = Some (build_table (_get_commands klass)) /\
       commands m1 = commands m /\
       events m1 = events m ++ [PluginLoadCalled (next_object m);
                                TaskSpawned (next_object m)
                                            (S (next_object m))] /\
       (forall mo, module = Some mo ->
          Dict.get mo (_module_plugins m1)
            = Some (default [] (Dict.get mo (_module_plugins m)) ++ [inst])
          /\
          (forall mo', mo' <> mo ->
             Dict.get mo' (_module_plugins m1)
               = Dict.get mo' (_module_plugins m))) /\
       (module = None -> _module_plugins m1 = _module_plugins m)).
Proof.
  split.
  - intros e He. unfold load_plugin. simpl. rewrite He.
    eexists. split; [reflexivity|]. simpl. auto.
  - intros Hok. unfold load_plugin. simpl. rewrite Hok.
    eexists. split; [reflexivity|]. simpl.
    split; [destruct module; simpl; apply DictProps.get_set_same|].
    split; [destruct module; simpl; apply DictProps.get_set_same|].
    split; [destruct module; reflexivity|].
    split; [destruct module; simpl; now rewrite <- app_assoc|].
    split.
    + intros mo ->. simpl. unfold module_append. split.
      * destruct (Dict.get mo (_module_plugins m)) as [l|];
          apply DictProps.get_set_same.
      * intros mo' Hne.
        destruct (Dict.get mo (_module_plugins m)) as [l|];
          apply DictProps.get_set_other; congruence.
    + intros ->. reflexivity.
Qed.

Lemma load_plugin_registers_iff_hook_succeeds_witness :
  (exists m1,
     load_plugin Broken None new_manager = (Raise TypeError, m1) /\
     plugins m1 = plugins new_manager /\
     _plugin_command_cache m1 = _plugin_command_cache new_manager /\
     commands m1 = commands new_manager /\
     _module_plugins m1 = _module_plugins new_manager /\
     events m1 = events new_manager ++ [PluginLoadCalled 0]) /\
  (exists m1,
     load_plugin Echo (Some "plugins") new_manager
       = (Ok (mkPlugin 0 Echo), m1) /\
     Dict.get "echo_plugin" (plugins m1)
       = Some (mkPlugin 0 Echo, mkCancelScope 1)) /\
  (exists m1,
     load_plugin Ping (Some "plugins") echo_loaded
       = (Ok (mkPlugin 2 Ping), m1) /\
     Dict.get "plugins" (_module_plugins m1)
       = Some ([mkPlugin 0 Echo] ++ [mkPlugin 2 Ping])).
Proof.
  split.
  - apply (proj1 (load_plugin_registers_iff_hook_succeeds Broken None
                    new_manager) TypeError).
    reflexivity.
  - split.
    + destruct (proj2 (load_plugin_registers_iff_hook_succeeds Echo
                         (Some "plugins") new_manager) eq_refl)
        as (m1 & Hl & Hreg & _).
      exists m1. split; [exact Hl|exact Hreg].
    + destruct (proj2 (load_plugin_registers_iff_hook_succeeds Ping
                         (Some "plugins") echo_loaded) eq_refl)
        as (m1 & Hl & _ & _ & _ & _ & Hmod & _).
      exists m1. split; [exact Hl|].
      exact (proj1 (Hmod "plugins" eq_refl)).
Defined.

(** Indexing a command: its primary name and aliases now map to it, every
    other key keeps its value. *)
Lemma get_fold_aliases (c : Command) aliases (t : Dict.t string Command) n :
  Dict.get n (fold_left (fun t alias => Dict.set alias c t) aliases t)
    = if existsb (String.eqb n) aliases then Some c else Dict.get n t.
Proof.
  revert t. induction aliases as [|a aliases IH]; intros t; simpl.
  - reflexivity.
  - rewrite IH, DictMore.get_set.
    destruct (existsb (String.eqb n) aliases); [now rewrite orb_true_r|].
    rewrite orb_false_r. destruct (decide (a = n)) as [->|N].
    + now rewrite String.eqb_refl.
    + destruct (String.eqb n a) eqn:E; [|reflexivity].
      apply String.eqb_eq in E. congruence.
Qed.

Lemma get_index_command c t n :
  Dict.get n (index_command c t)
    = if matches n c then Some c else Dict.get n t.
Proof.
  unfold index_command, matches. rewrite get_fold_aliases, DictMore.get_set.
  destruct (existsb (String.eqb n) (cmd_aliases c)); [now rewrite orb_true_r|].
  rewrite orb_false_r. destruct (decide (cmd_name c = n)) as [->|N].
  - now rewrite String.eqb_refl.
  - destruct (String.eqb (cmd_name c) n) eqn:E; [|reflexivity].
    apply String.eqb_eq in E. congruence.
Qed.

Lemma get_fold_index cs t n c :
  Dict.get n (fold_left (fun t c => index_command c t) cs t) = Some c ->
  (In c cs /\ matches n c = true) \/ Dict.get n t = Some c.
Proof.
  revert t. induction cs as [|c0 cs IH]; intros t; simpl; [auto|].
  intros H. destruct (IH _ H) as [[Hin Hm]|Hget]; [auto|].
  rewrite get_index_command in Hget.
  destruct (matches n c0) eqn:E; [|auto].
  injection Hget as <-. auto.
Qed.

Lemma build_table_sound cs n c :
  Dict.get n (build_table cs) = Some c -> In c cs /\ matches n c = true.
Proof.
  intros H. destruct (get_fold_index cs Dict.empty n c H) as [?|Hd];
    [assumption|discriminate Hd].
Qed.

(** A table appended to the cache is consulted last. *)
Lemma lookup_in_tables_app n tables key table :
  lookup_in_tables n (tables ++ [(key, table)])
    = match lookup_in_tables n tables with
      | Some c => Some c
      | None => Dict.get n table
      end.
Proof.
  induction tables as [|[k0 t0] tables IH]; simpl.
  - now destruct (Dict.get n table).
  - destruct (Dict.get n t0); [reflexivity|exact IH].
Qed.

(** X20: loading a plugin never changes what an already resolving name
    resolves to: standalone commands and plugins loaded earlier take
    precedence.  A name that did not resolve resolves afterwards exactly
    when the table of the new plugin has it, and then to a command of
    that plugin that carries the name as primary name or alias. *)
Theorem load_plugin_extends_resolution
    (klass : PluginClass) (module : option string)
    (m m1 : CommandsManager) (inst : Plugin) :
  Dict.get (KeyInstance (next_object m)) (_plugin_command_cache m) = None ->
  load_plugin klass module m = (Ok inst, m1) ->
  (forall n c, lookup_command m n = Some c -> lookup_command m1 n = Some c) /\
  (forall n, lookup_command m n = None ->
     lookup_command m1 n = Dict.get n (build_table (_get_commands klass))) /\
  (forall n c, lookup_command m n = None -> lookup_command m1 n = Some c ->
     In c (_get_commands klass) /\
     (cmd_name c = n \/ In n (cmd_aliases c))).
Proof.
  intros Hfresh Hl.
  destruct (LifecycleProps.load_plugin_ok _ _ _ _ _ Hl) as (_ & _ & Hc & Hs).
  assert (E : forall n,
            lookup_command m1 n =
              match lookup_command m n with
              | Some c => Some c
              | None => Dict.get n (build_table (_get_commands klass))
              end).
  { intros n. unfold lookup_command. rewrite Hs, Hc.
    rewrite (DictMore.set_fresh _ _ _ Hfresh), lookup_in_tables_app.
    destruct (Dict.get n (commands m)); reflexivity. }
  split; [|split].
  - intros n c H. now rewrite E, H.
  - intros n H. now rewrite E, H.
  - intros n c H H1. rewrite E, H in H1.
    apply build_table_sound in H1 as [Hin Hm].
    split; [exact Hin|]. now apply ResolverProps.matches_spec.
Qed.

Lemma load_plugin_extends_resolution_witness :
  lookup_command (snd (load_plugin Echo None loaded)) "ping" = Some ping /\
  lookup_command (snd (load_plugin Echo None loaded)) "say" = Some echo.
Proof.
  destruct (load_plugin_extends_resolution Echo None loaded
              (snd (load_plugin Echo None loaded)) (mkPlugin 2 Echo)
              eq_refl eq_refl) as (Hold & Hnew & _).
  split.
  - apply Hold. reflexivity.
  - rewrite Hnew; reflexivity.
Defined.

Lemma pop_present {K V : Type} `{EqDecision K} (k : K) (v : V)
    (d : Dict.t K V) :
  Dict.get k d = Some v -> Dict.pop k d = Some (v, Dict.remove k d).
Proof. unfold Dict.pop. now intros ->. Qed.

(** X21: unloading a registered name removes it from the registry,
    cancels the scope of its task and only then calls the unload hook;
    the standalone table is not touched.  If the hook raises, that
    exception is the outcome and the command-table cache is as it was,
    while the registry entry is already gone and the task cancelled. *)
Theorem unload_cancels_then_calls_hook
    (m : CommandsManager) (name : string) (plugin : Plugin)
    (scope : CancelScope) :
  Dict.get name (plugins m) = Some (plugin, scope) ->
  exists r m2,
    unload_plugin (inl name) m = (r, m2) /\
    events m2 = events m ++ [ScopeCancelled (scope_id scope);
                             PluginUnloadCalled (instance_id plugin)] /\
    plugins m2 = Dict.remove name (plugins m) /\
    commands m2 = commands m /\
    (forall e, plugin_unload (klass_of plugin) = Raise e ->
       r = Raise e /\ _plugin_command_cache m2 = _plugin_command_cache m).
Proof.
  intros Hreg. unfold unload_plugin. rewrite (pop_present _ _ _ Hreg). simpl.
  destruct (plugin_unload (klass_of plugin)) as [u|e0] eqn:Hu.
  - destruct (Dict.pop (KeyStr (name_of_plugin plugin))
                       (_plugin_command_cache m)) as [[t rest]|];
      eexists; eexists; (split; [reflexivity|]); simpl;
      rewrite <- app_assoc;
      (split; [reflexivity|]); (split; [reflexivity|]);
      (split; [reflexivity|]); intros e He; discriminate He.
  - eexists; eexists. split; [reflexivity|]. simpl.
    rewrite <- app_assoc.
    split; [reflexivity|]. split; [reflexivity|]. split; [reflexivity|].
    intros e He. injection He as <-. split; reflexivity.
Qed.

Lemma unload_cancels_then_calls_hook_witness :
  exists r m2,
    unload_plugin (inl "Ping") loaded = (r, m2) /\
    events m2 = events loaded ++ [ScopeCancelled 1; PluginUnloadCalled 0] /\
    plugins m2 = Dict.remove "Ping" (plugins loaded) /\
    commands m2 = commands loaded /\
    (forall e, plugin_unload Ping = Raise e ->
       r = Raise e /\
       _plugin_command_cache m2 = _plugin_command_cache loaded).
Proof.
  apply (unload_cancels_then_calls_hook loaded "Ping" (mkPlugin 0 Ping)
           (mkCancelScope 1)).
  reflexivity.
Defined.

Lemma matches_names n c :
  matches n c = true <-> cmd_name c = n \/ In n (cmd_aliases c).
Proof. apply ResolverProps.matches_spec. Qed.

(** X22: after [add_command(c)] the primary name and every alias of [c]
    resolve to [c], whatever the plugins define under those names; every
    other name resolves as before, and the plugin registry and the
    command-table cache are untouched. *)
Theorem add_command_registers_all_names (c : Command) (m : CommandsManager) :
  (forall n, cmd_name c = n \/ In n (cmd_aliases c) ->
     lookup_command (add_command c m) n = Some c) /\
  (forall n, cmd_name c <> n -> ~ In n (cmd_aliases c) ->
     lookup_command (add_command c m) n = lookup_command m n) /\
  plugins (add_command c m) = plugins m /\
  _plugin_command_cache (add_command c m) = _plugin_command_cache m.
Proof.
  split; [|split; [|split; reflexivity]].
  - intros n Hn. apply matches_names in Hn.
    unfold lookup_command, add_command. simpl.
    now rewrite get_index_command, Hn.
  - intros n H1 H2.
    assert (Hn : matches n c = false).
    { destruct (matches n c) eqn:E; [|reflexivity].
      apply matches_names in E. tauto. }
    unfold lookup_command, add_command. simpl.
    now rewrite get_index_command, Hn.
Qed.

Lemma add_command_registers_all_names_witness :
  lookup_command (add_command role_deep loaded) "r" = Some role_deep /\
  lookup_command (add_command role_deep loaded) "ping"
    = lookup_command loaded "ping".
Proof.
  destruct (add_command_registers_all_names role_deep loaded)
    as (Hnames & Hother & _).
  split.
  - apply Hnames. right. left. reflexivity.
  - apply Hother; [discriminate|].
    intros [H|[]]. discriminate H.
Defined.














Lemma split_on_go_snoc sep word path child :
  contains_char sep child = false ->
  split_on_go sep word (path ++ String sep child)
    = split_on_go sep word path ++ [child].
Proof.
  intros Hc. revert word. induction path as [|c path IH]; intros word; simpl.
  - rewrite Ascii.eqb_refl. f_equal.
    exact (TextProps.split_on_single sep child Hc).
  - destruct (Ascii.eqb c sep); [now rewrite IH|apply IH].
Qed.

Lemma split_on_go_first sep word s :
  exists first rest, split_on_go sep word s = first :: rest.
Proof.
  revert word. induction s as [|c s IH]; intros word; simpl; [eauto|].
  destruct (Ascii.eqb c sep); [eauto|apply IH].
Qed.

Lemma walk_subcommands_snoc command tokens token :
  walk_subcommands command (tokens ++ [token])
    = match walk_subcommands command tokens with
      | Some d => List.find (matches token) (cmd_subcommands d)
      | None => None
      end.
Proof.
  revert command. induction tokens as [|t tokens IH]; intros command; simpl.
  - now destruct (List.find (matches token) (cmd_subcommands command)).
  - destruct (List.find (matches t) (cmd_subcommands command)) as [sub|];
      [apply IH|reflexivity].
Qed.

(** X25: resolution goes one subcommand step at a time, to any depth: a
    dotted name extended by a space and one more token resolves to the
    first subcommand of what the shorter name resolves to that carries the
    token as primary name or alias, and to nothing when the shorter name
    resolves to nothing or no subcommand matches. *)
Theorem get_command_extends
    (m : CommandsManager) (path child : string) :
  contains_char space child = false ->
  get_command m (path ++ " " ++ child)
    = match get_command m path with
      | Some d => List.find (matches child) (cmd_subcommands d)
      | None => None
      end.
Proof.
  intros Hc. unfold get_command, split_on.
  change (path ++ " " ++ child)%string
    with (path ++ String space child)%string.
  rewrite (split_on_go_snoc _ _ _ _ Hc).
  destruct (split_on_go_first space EmptyString path) as (first & rest & ->).
  simpl. destruct (lookup_command m first) as [command|]; [|reflexivity].
  apply walk_subcommands_snoc.
Qed.

Lemma get_command_extends_witness :
  get_command with_role_deep ("r add" ++ " " ++ "many")
    = match get_command with_role_deep "r add" with
      | Some d => List.find (matches "many") (cmd_subcommands d)
      | None => None
      end.
Proof.
  apply (get_command_extends with_role_deep "r add" "many"). reflexivity.
Defined.

(** The loop of [unload_plugins_from] only calls unload hooks and pops
    registry entries. *)
Lemma unload_each_frame ps m r m' :
  unload_each ps m = (r, m') ->
  _plugin_command_cache m' = _plugin_command_cache m /\
  commands m' = commands m /\
  _module_plugins m' = _module_plugins m /\
  exists es, events m' = events m ++ es /\
             Forall (fun e => exists i, e = PluginUnloadCalled i) es.
Proof.
  revert m. induction ps as [|plugin ps IH]; intros m; simpl.
  - intros [= <- <-]. repeat split. exists []. rewrite app_nil_r.
    split; [reflexivity|constructor].
  - destruct (plugin_unload (klass_of plugin)).
    + destruct (Dict.pop (name_of_plugin plugin) (plugins m))
        as [[entry rest]|].
      * intros H. destruct (IH _ H) as (Hc & Hs & Hm & es & He & Hes).
        simpl in *. repeat split; try assumption.
        exists (PluginUnloadCalled (instance_id plugin) :: es).
        rewrite He, <- app_assoc. split; [reflexivity|].
        constructor; [eauto|exact Hes].
      * intros [= <- <-]. simpl. repeat split.
        exists [PluginUnloadCalled (instance_id plugin)].
        split; [reflexivity|]. constructor; [eauto|constructor].
    + intros [= <- <-]. simpl. repeat split.
      exists [PluginUnloadCalled (instance_id plugin)].
      split; [reflexivity|]. constructor; [eauto|constructor].
Qed.

(** X26: [unload_plugins_from] never cancels a task and never touches the
    command tables.  However it ends, the only calls it makes are unload
    hooks, the command-table cache and the standalone table are as before,
    and so every name resolves as it did, the commands of the unloaded
    plugins included.  When it succeeds the module is no longer among the
    imported ones; a module that was never imported raises KeyError and
    changes nothing. *)
Theorem unload_plugins_from_keeps_tables_and_tasks
    (import_path : string) (sys_modules sys_modules' : list string)
    (m m' : CommandsManager) (r : result unit) :
  unload_plugins_from import_path sys_modules m = (r, (sys_modules', m')) ->
  _plugin_command_cache m' = _plugin_command_cache m /\
  commands m' = commands m /\
  (forall n, lookup_command m' n = lookup_command m n) /\
  (exists es, events m' = events m ++ es /\
              Forall (fun e => exists i, e = PluginUnloadCalled i) es) /\
  (r = Ok tt -> ~ In import_path sys_modules') /\
  (~ In import_path sys_modules ->
   r = Raise (KeyError import_path) /\ m' = m /\ sys_modules' = sys_modules).
Proof.
  unfold unload_plugins_from. intros H.
  destruct (existsb (String.eqb import_path) sys_modules) eqn:Himp.
  - destruct (unload_each
                match Dict.get import_path (_module_plugins m) with
                | Some l => l
                | None => []
                end m) as [r0 m0] eqn:Hloop.
    destruct (unload_each_frame _ _ _ _ Hloop) as (Hc & Hs & _ & Hev).
    assert (Htables : _plugin_command_cache m' = _plugin_command_cache m /\
                      commands m' = commands m /\
                      events m' = events m0).
    { destruct r0; injection H as <- <- <-; simpl; auto. }
    destruct Htables as (Hc' & Hs' & He').
    split; [exact Hc'|]. split; [exact Hs'|].
    split; [intros n; unfold lookup_command; now rewrite Hc', Hs'|].
    split; [now rewrite He'|]. split.
    + intros ->. destruct r0; [|discriminate H].
      injection H as <- <-. intros Hin.
      apply filter_In in Hin as [_ Hneq].
      now rewrite String.eqb_refl in Hneq.
    + intros Hout. exfalso. apply Hout.
      apply existsb_exists in Himp as (x & Hin & Hx).
      apply String.eqb_eq in Hx. now subst x.
  - injection H as <- <- <-.
    split; [reflexivity|]. split; [reflexivity|].
    split; [reflexivity|]. split.
    + exists []. rewrite app_nil_r. split; [reflexivity|constructor].
    + split; [discriminate|auto].
Qed.

Lemma unload_plugins_from_keeps_tables_and_tasks_witness :
  fst (unload_plugins_from "plugins" ["sys"; "plugins"] batch) = Ok tt /\
  lookup_command batch "ping" = Some ping /\
  forall n, lookup_command batch_unloaded n = lookup_command batch n.
Proof.
  split; [reflexivity|]. split; [reflexivity|].
  apply (unload_plugins_from_keeps_tables_and_tasks "plugins"
           ["sys"; "plugins"] ["sys"] batch batch_unloaded (Ok tt)).
  reflexivity.
Defined.







Lemma new_manager_instances_are_older : instances_are_older new_manager.
Proof. intros i []. Qed.

(** Loading keeps every resolving name resolving, makes the names of the
    new plugin resolve, and keeps the numbering of instances. *)
Lemma load_plugin_grows klass module m inst m1 :
  instances_are_older m ->
  load_plugin klass module m = (Ok inst, m1) ->
  instances_are_older m1 /\
  (forall n, lookup_command m n <> None -> lookup_command m1 n <> None) /\
  (forall c n, In c (_get_commands klass) ->
     cmd_name c = n \/ In n (cmd_aliases c) -> lookup_command m1 n <> None).
Proof.
  intros Hold Hl.
  destruct (LifecycleProps.load_plugin_ok _ _ _ _ _ Hl) as (_ & _ & Hc & Hs).
  assert (Hnext : next_object m1 = S (S (next_object m))).
  { unfold load_plugin in Hl. simpl in Hl.
    destruct (plugin_load klass); [|discriminate Hl].
    destruct module; injection Hl as <- <-; reflexivity. }
  assert (Hfresh : Dict.get (KeyInstance (next_object m))
                            (_plugin_command_cache m) = None).
  { apply DictProps.get_not_key. intros Hin. apply Hold in Hin. lia. }
  split; [|split].
  - intros i Hin. rewrite Hc in Hin. rewrite Hnext.
    destruct (DictProps.keys_set _ _ _ _ Hin) as [[= ->]|Hin']; [lia|].
    apply Hold in Hin'. lia.
  - intros n Hn. unfold lookup_command in *. rewrite Hs, Hc.
    destruct (Dict.get n (commands m)); [discriminate|].
    rewrite (DictMore.set_fresh _ _ _ Hfresh), lookup_in_tables_app.
    now destruct (lookup_in_tables n (_plugin_command_cache m)).
  - intros c n Hin Hn.
    apply (LifecycleProps.lookup_command_finds _ n
             (KeyInstance (next_object m))
             (build_table (_get_commands klass))).
    + rewrite Hc. apply DictProps.get_set_same.
    + apply (LifecycleProps.build_table_has _ c n Hin).
      destruct Hn as [<-|Hn]; [now left|now right].
Qed.

Lemma load_each_grows classes mo m m1 :
  instances_are_older m ->
  load_each classes mo m = (Ok tt, m1) ->
  (forall n, lookup_command m n <> None -> lookup_command m1 n <> None) /\
  (forall k c n, In k classes -> In c (_get_commands k) ->
     cmd_name c = n \/ In n (cmd_aliases c) -> lookup_command m1 n <> None).
Proof.
  revert m. induction classes as [|k classes IH]; intros m Hold; simpl.
  - intros [= <-]. split; [auto|]. intros k c n [].
  - destruct (load_plugin k (Some mo) m) as [[inst|e] mk] eqn:Hl;
      [|discriminate].
    intros Hrest.
    destruct (load_plugin_grows _ _ _ _ _ Hold Hl) as (Hold' & Hkeep & Hnew).
    destruct (IH _ Hold' Hrest) as (Hkeep' & Hnew').
    split; [auto|].
    intros k' c n [<-|Hin] Hc Hn; [|eapply Hnew'; eassumption].
    apply Hkeep'. eapply Hnew; eassumption.
Qed.

(** X28: the commands of a module loaded with [load_plugins_from]
    resolve, and they go on resolving after [unload_plugins_from] on that
    module, however that call ends: the batch unload calls unload hooks
    only, cancels no task and leaves the command tables behind. *)
Theorem batch_unload_leaves_commands_resolvable
    (import_path : string) (members : list (string * Member))
    (sys_modules sys_modules' : list string)
    (m m1 m2 : CommandsManager) (r : result unit) :
  instances_are_older m ->
  load_plugins_from import_path members m = (Ok tt, m1) ->
  unload_plugins_from import_path sys_modules m1 = (r, (sys_modules', m2)) ->
  (forall name k c n,
     In (name, PluginSubclass k) members -> In c (_get_commands k) ->
     cmd_name c = n \/ In n (cmd_aliases c) ->
     lookup_command m1 n <> None /\
     lookup_command m2 n = lookup_command m1 n) /\
  (exists es, events m2 = events m1 ++ es /\
              Forall (fun e => exists i, e = PluginUnloadCalled i) es).
Proof.
  intros Hold Hload Hunload. unfold load_plugins_from in Hload.
  destruct (load_each_grows _ _ _ _ Hold Hload) as [_ Hnew].
  assert (Hsame : forall n, lookup_command m2 n = lookup_command m1 n /\
            exists es, events m2 = events m1 ++ es /\
              Forall (fun e => exists i, e = PluginUnloadCalled i) es).
  { intros n. revert Hunload. unfold unload_plugins_from.
    destruct (existsb (String.eqb import_path) sys_modules).
    - destruct (unload_each
                  match Dict.get import_path (_module_plugins m1) with
                  | Some l => l
                  | None => []
                  end m1) as [r0 m0] eqn:Hloop.
      destruct (unload_each_frame _ _ _ _ Hloop) as (Hc & Hs & _ & Hev).
      intros H.
      assert (Ht : _plugin_command_cache m2 = _plugin_command_cache m1 /\
                   commands m2 = commands m1 /\ events m2 = events m0).
      { destruct r0; injection H as <- <- <-; simpl; auto. }
      destruct Ht as (Hc' & Hs' & He').
      split; [unfold lookup_command; now rewrite Hc', Hs'|].
      now rewrite He'.
    - intros [= <- <- <-]. split; [reflexivity|].
      exists []. rewrite app_nil_r. split; [reflexivity|constructor]. }
  split; [|exact (proj2 (Hsame EmptyString))].
  intros name k c n Hmem Hc Hn. split; [|exact (proj1 (Hsame n))].
  apply (Hnew k c n); [|exact Hc|exact Hn].
  apply list_elem_of_In, list_elem_of_omap.
  exists (name, PluginSubclass k). split; [|reflexivity].
  now apply list_elem_of_In.
Qed.

Lemma batch_unload_leaves_commands_resolvable_witness :
  lookup_command batch "say" <> None /\
  lookup_command batch_unloaded "say" = lookup_command batch "say".
Proof.
  apply (proj1 (batch_unload_leaves_commands_resolvable "plugins" members
                  ["sys"; "plugins"] ["sys"] new_manager batch batch_unloaded
                  (Ok tt) new_manager_instances_are_older
                  eq_refl eq_refl)
           "Echo" Echo echo "say");
    [left; reflexivity | left; reflexivity | right; left; reflexivity].
Defined.

(** X29: [handle_commands] fires signals for one reason only: the
    command run for a matched message ended with a CommandsError.  It then
    fires the generic signal first and the signal named by the error
    second, and returns normally.  In every other case nothing is fired;
    an exception of the message check or any other exception of the
    command is the outcome of the call.  Both directions hold: whatever
    the call did is explained by one of these cases, and for a message
    that has an author and that no flag of [bot_type] excludes, each case
    gives its outcome: a CommandsError fires the two signals in that order
    and the call returns, a command that completes and a message that
    matches no prefix fire nothing, and any other exception leaves the
    call. *)
Theorem handle_commands_fires_two_signals
    (client : Client)
    (message_check : Utils.Message -> result (option (string * list string)))
    (run : string -> list string -> RunOutcome)
    (msg : Incoming) :
  (forall (r : result unit) (signals : list string),
     handle_commands client message_check run msg = (r, signals) ->
     (signals = [] \/
      (r = Ok tt /\
       exists word tokens event_name,
         message_check (message msg) = Ok (Some (word, tokens)) /\
         run word tokens = CommandsError event_name /\
         signals = ["command_error"; event_name])) /\
     (forall e, r = Raise e ->
        message_check (message msg) = Raise e \/
        exists word tokens,
          message_check (message msg) = Ok (Some (word, tokens)) /\
          run word tokens = OtherError e)) /\
  (forall u,
     author msg = Some u ->
     (bot u = true -> flag (bot_type client) 8 = false) ->
     (user_id u <> user_id (client_user client) ->
        flag (bot_type client) 64 = false) ->
     (guild_id msg <> None -> flag (bot_type client) 32 = false) ->
     (guild_id msg = None -> flag (bot_type client) 16 = false) ->
     (forall word tokens,
        message_check (message msg) = Ok (Some (word, tokens)) ->
        (forall event_name,
           run word tokens = CommandsError event_name ->
           handle_commands client message_check run msg
             = (Ok tt, ["command_error"; event_name])) /\
        (run word tokens = Completed ->
           handle_commands client message_check run msg = (Ok tt, [])) /\
        (forall e,
           run word tokens = OtherError e ->
           handle_commands client message_check run msg = (Raise e, []))) /\
     (message_check (message msg) = Ok None ->
        handle_commands client message_check run msg = (Ok tt, [])) /\
     (forall e,
        message_check (message msg) = Raise e ->
        handle_commands client message_check run msg = (Raise e, []))).
Proof.
  split.
  - intros r signals. unfold handle_commands.
    destruct (author msg) as [u|];
      [|intros [= <- <-]; split; [now left|discriminate]].
    destruct (bot u && flag (bot_type client) 8);
      [intros [= <- <-]; split; [now left|discriminate]|].
    destruct (negb (Nat.eqb (user_id u) (user_id (client_user client)))
              && flag (bot_type client) 64);
      [intros [= <- <-]; split; [now left|discriminate]|].
    destruct (match guild_id msg with Some _ => true | None => false end
              && flag (bot_type client) 32);
      [intros [= <- <-]; split; [now left|discriminate]|].
    destruct (match guild_id msg with Some _ => false | None => true end
              && flag (bot_type client) 16);
      [intros [= <- <-]; split; [now left|discriminate]|].
    destruct (message_check (message msg)) as [[[word tokens]|]|e0] eqn:Hc.
    + destruct (run word tokens) as [|event_name|e1] eqn:Hr;
        intros [= <- <-].
      * split; [now left|discriminate].
      * split; [|discriminate]. right. split; [reflexivity|].
        exists word, tokens, event_name. auto.
      * split; [now left|]. intros e [= <-]. right.
        exists word, tokens. auto.
    + intros [= <- <-]. split; [now left|discriminate].
    + intros [= <- <-]. split; [now left|]. intros e [= <-]. now left.
  - intros u Hu H8 H64 H32 H16.
    assert (E1 : bot u && flag (bot_type client) 8 = false).
    { destruct (bot u); [simpl; now apply H8|reflexivity]. }
    assert (E2 : negb (Nat.eqb (user_id u) (user_id (client_user client)))
                 && flag (bot_type client) 64 = false).
    { destruct (Nat.eqb_spec (user_id u) (user_id (client_user client)));
        [reflexivity|simpl; now apply H64]. }
    assert (E3 : match guild_id msg with Some _ => true | None => false end
                 && flag (bot_type client) 32 = false).
    { destruct (guild_id msg); [simpl; now apply H32|reflexivity]. }
    assert (E4 : match guild_id msg with Some _ => false | None => true end
                 && flag (bot_type client) 16 = false).
    { destruct (guild_id msg); [reflexivity|simpl; now apply H16]. }
    unfold handle_commands. rewrite Hu, E1, E2, E3, E4.
    split; [|split].
    + intros word tokens ->. split; [|split].
      * now intros event_name ->.
      * now intros ->.
      * now intros e ->.
    + now intros ->.
    + now intros e ->.
Qed.

Lemma handle_commands_fires_two_signals_witness :
  handle_commands (mkClient me 40)
    (Utils.prefix_check_factory (Utils.Static (Utils.PrefixStr "!")))
    (fun _ _ => CommandsError "command_missing_argument")
    (mkIncoming (Some someone) None (Utils.mkMessage "!ping"))
    = (Ok tt, ["command_error"; "command_missing_argument"]) /\
  (["command_error"; "command_missing_argument"] = [] \/
   (Ok tt = Ok tt /\
    exists word tokens event_name,
      Utils.prefix_check_factory (Utils.Static (Utils.PrefixStr "!"))
        (Utils.mkMessage "!ping") = Ok (Some (word, tokens)) /\
      CommandsError "command_missing_argument" = CommandsError event_name /\
      ["command_error"; "command_missing_argument"]
        = ["command_error"; event_name])).
Proof.
  pose proof (handle_commands_fires_two_signals (mkClient me 40)
                (Utils.prefix_check_factory
                   (Utils.Static (Utils.PrefixStr "!")))
                (fun _ _ => CommandsError "command_missing_argument")
                (mkIncoming (Some someone) None (Utils.mkMessage "!ping")))
    as [Hback Hforth].
  split.
  - refine (proj1 (proj1 (Hforth someone eq_refl _ _ _ _) "ping" []
                     eq_refl) _ eq_refl).
    + discriminate.
    + reflexivity.
    + intros H. now contradiction H.
    + reflexivity.
  - exact (proj1 (Hback (Ok tt)
                    ["command_error"; "command_missing_argument"] eq_refl)).
Defined.

Lemma flag_of_zero mask : flag 0 mask = false.
Proof. reflexivity. Qed.

(** X30: the policy flags of [bot_type] gate the whole pipeline.  A
    message without an author is dropped.  With both the flag 16 and the
    flag 32 set no message is ever processed, since each one either has a
    guild or has none.  With the flag 64 set only messages of the client's
    own user are processed, and with the flag 8 set no message of a bot
    is.  A dropped message never reaches the message check, whatever that
    check would do; with no flag set every message with an author does. *)
Theorem handle_commands_policy_flags
    (client : Client)
    (message_check : Utils.Message -> result (option (string * list string)))
    (run : string -> list string -> RunOutcome)
    (msg : Incoming) :
  (author msg = None ->
     handle_commands client message_check run msg = (Ok tt, [])) /\
  (flag (bot_type client) 16 = true -> flag (bot_type client) 32 = true ->
     handle_commands client message_check run msg = (Ok tt, [])) /\
  (forall u, author msg = Some u -> flag (bot_type client) 64 = true ->
     user_id u <> user_id (client_user client) ->
     handle_commands client message_check run msg = (Ok tt, [])) /\
  (forall u, author msg = Some u -> flag (bot_type client) 8 = true ->
     bot u = true ->
     handle_commands client message_check run msg = (Ok tt, [])) /\
  (forall u e, author msg = Some u -> bot_type client = 0%Z ->
     message_check (message msg) = Raise e ->
     handle_commands client message_check run msg = (Raise e, [])).
Proof.
  unfold handle_commands. split; [now intros ->|].
  split; [|split; [|split]].
  - intros H16 H32. destruct (author msg) as [u|]; [|reflexivity].
    rewrite H16, H32.
    destruct (bot u && flag (bot_type client) 8); [reflexivity|].
    destruct (negb (Nat.eqb (user_id u) (user_id (client_user client)))
              && flag (bot_type client) 64); [reflexivity|].
    destruct (guild_id msg); reflexivity.
  - intros u -> H64 Hu. rewrite H64.
    apply Nat.eqb_neq in Hu. rewrite Hu. simpl.
    destruct (bot u && flag (bot_type client) 8); reflexivity.
  - intros u -> H8 Hb. now rewrite H8, Hb.
  - intros u e -> -> ->. rewrite !flag_of_zero, !andb_false_r. reflexivity.
Qed.

Lemma handle_commands_policy_flags_witness :
  handle_commands (mkClient me 48)
    (Utils.prefix_check_factory (Utils.Static (Utils.PrefixStr "!")))
    (fun _ _ => Completed)
    (mkIncoming (Some someone) (Some 7) (Utils.mkMessage "!ping"))
    = (Ok tt, []).
Proof.
  apply (proj1 (proj2 (handle_commands_policy_flags (mkClient me 48)
           (Utils.prefix_check_factory (Utils.Static (Utils.PrefixStr "!")))
           (fun _ _ => Completed)
           (mkIncoming (Some someone) (Some 7) (Utils.mkMessage "!ping")))));
    reflexivity.
Defined.

End ManagerMore.
